(** * Roadmap generator: the /generate handler of main.py

    A shallow embedding of [generate_roadmap] (main.py, lines 31-168): the
    prompt template, the two-step text extraction, the cleaning of the
    Mermaid code, the validation gate and the translation of the Kroki
    answer into the returned dictionary.

    Modelling choices:
    - a Python [str] is a list of 8-bit characters (code points 0..255),
      with [isspace] and [lower] as Python defines them on this range;
    - an exception is a class flag (does it derive from [AttributeError]?)
      and its message [str(e)]; only instances of [Exception] are modelled;
    - the response of the model is given by what reading each of its
      attributes does (a value or an exception), the same at every read;
      the texts are typed as the SDK types them, a string or [None];
    - the two remote calls are the nodes of a finite interaction tree, run
      against a world that says what each call returns or raises;
    - a returned dictionary is the association list of its literal;
    - the [print] calls are diagnostic only and are left out. *)

From Stdlib Require Import List Ascii String Bool Arith ZArith Lia.
Import ListNotations.

Set Implicit Arguments.

(** ** Python [str] operations used by the handler *)

Module PyStr.

Definition str := list ascii.

(** A string literal of the source. *)
Definition lit (s : string) : str := list_ascii_of_string s.

(** [str.isspace] per character, on code points below 256. *)
Definition isspace (c : ascii) : bool :=
  let n := nat_of_ascii c in
  ((9 <=? n) && (n <=? 13)) || ((28 <=? n) && (n <=? 32))
  || (n =? 133) || (n =? 160).

Fixpoint lstrip (s : str) : str :=
  match s with
  | [] => []
  | c :: s' => if isspace c then lstrip s' else s
  end.

Definition rstrip (s : str) : str := rev (lstrip (rev s)).

(** [s.strip()] *)
Definition strip (s : str) : str := rstrip (lstrip s).

(** [s.startswith(p)] *)
Fixpoint startswith (s p : str) {struct p} : bool :=
  match p with
  | [] => true
  | a :: p' =>
      match s with
      | [] => false
      | b :: s' => Ascii.eqb a b && startswith s' p'
      end
  end.

(** [sub in s] *)
Fixpoint contains (s sub : str) : bool :=
  startswith s sub ||
  match s with
  | [] => false
  | _ :: s' => contains s' sub
  end.

(** [s.replace(old, new)] for a non-empty [old] (every call site of the
    handler passes a non-empty literal): the occurrences are found from
    left to right and do not overlap. [skip] counts the characters of a
    matched occurrence that are still to be passed over. *)
Fixpoint replace_from (skip : nat) (s old new : str) : str :=
  match s with
  | [] => []
  | c :: s' =>
      match skip with
      | S k => replace_from k s' old new
      | O =>
          if startswith s old
          then new ++ replace_from (List.length old - 1) s' old new
          else c :: replace_from 0 s' old new
      end
  end.

Definition replace (s old new : str) : str := replace_from 0 s old new.

(** [s.split(sep)] for a one-character separator. *)
Fixpoint split (s : str) (sep : ascii) : list str :=
  match s with
  | [] => [[]]
  | c :: s' =>
      if Ascii.eqb c sep then [] :: split s' sep
      else match split s' sep with
           | l :: ls => (c :: l) :: ls
           | [] => [[c]]
           end
  end.

(** [sep.join(ls)] *)
Fixpoint join (sep : str) (ls : list str) : str :=
  match ls with
  | [] => []
  | l :: ls' =>
      match ls' with
      | [] => l
      | _ :: _ => l ++ sep ++ join sep ls'
      end
  end.

(** [s.lower()] on code points below 256: A-Z and the accented capitals
    0xC0-0xDE (0xD7, the multiplication sign, apart) move up by 32. *)
Definition lower_char (c : ascii) : ascii :=
  let n := nat_of_ascii c in
  if ((65 <=? n) && (n <=? 90))
     || ((192 <=? n) && (n <=? 222) && negb (n =? 215))
  then ascii_of_nat (n + 32) else c.

Definition lower (s : str) : str := map lower_char s.

(** [s[:n]] *)
Definition slice_to (n : nat) (s : str) : str := firstn n s.

End PyStr.

Import PyStr.

(** The newline character and the literals of the cleaning code. *)
Definition NL : ascii := ascii_of_nat 10.
Definition nl : str := [NL].

(** ** Cleaning of the Mermaid code (main.py, lines 90-119) *)

(** Lines 91-94. *)
Definition strip_fences (mermaid_code : str) : str :=
  let c1 := strip mermaid_code in
  let c2 := replace c1 (lit "```mermaid") [] in
  let c3 := replace c2 (lit "```") [] in
  strip c3.

(** The loop of lines 99-102: the first index [i] whose line, stripped,
    starts with graph; [None] when the loop ends without [break]. *)
Fixpoint graph_line_index (lines : list str) : option nat :=
  match lines with
  | [] => None
  | l :: rest =>
      if startswith (strip l) (lit "graph") then Some 0
      else option_map S (graph_line_index rest)
  end.

(** Lines 97-102. *)
Definition find_graph_start (mermaid_code : str) : str :=
  if startswith mermaid_code (lit "graph") then mermaid_code
  else
    let lines := split mermaid_code NL in
    match graph_line_index lines with
    | Some i => join nl (skipn i lines)
    | None => mermaid_code
    end.

(** Lines 109-113, the body of the loop over the lines. *)
Definition clean_line (line : str) : str :=
  if contains line (lit "[") && contains line (lit "]")
  then replace line (lit ":") (lit " -")
  else line.

(** Lines 105-116. *)
Definition clean_labels (mermaid_code : str) : str :=
  join nl (map clean_line (split mermaid_code NL)).

(** The value of [mermaid_code] when line 118 is reached. *)
Definition clean (mermaid_code : str) : str :=
  clean_labels (find_graph_start (strip_fences mermaid_code)).

(** The gate of line 118, as the condition under which the handler goes on. *)
Definition has_graph_decl (mermaid_code : str) : bool :=
  contains mermaid_code (lit "graph TD") || contains mermaid_code (lit "graph LR").

Inductive sanitized : Type :=
| Valid (diagram : str)
| Invalid (raw : str).

(** Lines 91-119 as one function: the cleaned code, or the first 300
    characters of it when the gate refuses it. *)
Definition sanitize (mermaid_code : str) : sanitized :=
  let c := clean mermaid_code in
  if has_graph_decl c then Valid c else Invalid (slice_to 300 c).

(** ** Exceptions and attribute access *)

(** A Python exception, as far as the handler can tell exceptions apart:
    whether its class derives from [AttributeError] (what [hasattr] looks
    at), and [str(e)]. Only instances of [Exception] are modelled; the
    handlers of the source do not catch the others. *)
Record exn : Type := mk_exn { is_attribute_error : bool; str_e : str }.

(** The result of evaluating an expression that may raise. *)
Inductive outcome (A : Type) : Type :=
| Raised (e : exn)
| Returned (a : A).

Arguments Raised {A} e.
Arguments Returned {A} a.

Definition bind {A B : Type} (m : outcome A) (f : A -> outcome B) : outcome B :=
  match m with
  | Raised e => Raised e
  | Returned a => f a
  end.

Notation "x <- m ;; f" := (bind m (fun x => f))
  (at level 61, m at next level, right associativity).

(** [hasattr(o, name)], given what reading the attribute does: Python 3
    answers [False] on an [AttributeError] and lets any other exception
    through. *)
Definition hasattr {A : Type} (read : outcome A) : outcome bool :=
  match read with
  | Returned _ => Returned true
  | Raised e => if is_attribute_error e then Returned false else Raised e
  end.

(** ** The response of the model (the attributes the handler reads)

    Every attribute read is given with its result: a value, or the exception
    it raises (an [AttributeError] when the attribute is missing). A value
    that may be [None] is an [option]. *)

Record Part : Type := { part_text : outcome (option str) }.
Record Content : Type := { parts : outcome (option (list Part)) }.
Record Candidate : Type := { content : outcome (option Content) }.
Record GenerateContentResponse : Type := {
  text : outcome (option str);
  candidates : outcome (option (list Candidate))
}.

(** ** Text extraction (main.py, lines 64-88) *)

(** Lines 78-80: the loop that fills [text_parts]. *)
Fixpoint collect_text_parts (ps : list Part) (text_parts : list str)
  : outcome (list str) :=
  match ps with
  | [] => Returned text_parts
  | part :: rest =>
      h <- hasattr (part_text part) ;;
      if h then
        t <- part_text part ;;
        match t with
        | Some (c :: s) => collect_text_parts rest (text_parts ++ [c :: s])
        | _ => collect_text_parts rest text_parts
        end
      else collect_text_parts rest text_parts
  end.

(** Lines 74-83, the body of the inner [try]: the new value of
    [mermaid_code], which was [None] when the block was entered. *)
Definition method2 (response : GenerateContentResponse) : outcome (option str) :=
  cs <- candidates response ;;
  match cs with
  | Some (candidate :: _) =>
      c <- content candidate ;;
      match c with
      | Some cont =>
          ps <- parts cont ;;
          match ps with
          | Some (p :: ps') =>
              text_parts <- collect_text_parts (p :: ps') [] ;;
              match text_parts with
              | [] => Returned None
              | _ :: _ => Returned (Some (join [] text_parts))
              end
          | _ => Returned None
          end
      | None => Returned None
      end
  | _ => Returned None
  end.

(** Lines 68-69, the body of the outer [try]. *)
Definition method1 (response : GenerateContentResponse) : outcome (option str) :=
  h <- hasattr (text response) ;;
  if h then text response else Returned None.

(** Lines 65-85: the value of [mermaid_code] when line 87 is reached. The
    second method sits in the [except] clause of the first. *)
Definition extract_text (response : GenerateContentResponse) : option str :=
  match method1 response with
  | Returned mermaid_code => mermaid_code
  | Raised _ =>
      match method2 response with
      | Returned mermaid_code => mermaid_code
      | Raised _ => None
      end
  end.

(** ** The request and the prompt (main.py, lines 25-53) *)

Record RoadmapRequest : Type := {
  skill : str;
  language : str;
  speed : str;
  custom_prompt : str
}.

Definition prompt_rules : list string :=
  [ "";
    "IMPORTANT RULES:";
    "1. Start with: graph TD";
    "2. Use simple node IDs: A, B, C, etc";
    "3. Put labels in square brackets: A[Label Text]";
    "4. Avoid special characters in labels (no colons, quotes)";
    "5. Connect nodes: A --> B";
    "6. All nodes must be connected to the graph";
    "7. No explanations, just the graph code";
    "";
    "Example:";
    "graph TD";
    "    A[Start] --> B[Learn Basics]";
    "    B --> C[Practice]";
    "    C --> D[Build Project]";
    "";
    "Generate the roadmap now:" ]%string.

(** A text given line by line. *)
Definition unlines (ls : list string) : str := join nl (map lit ls).

(** Lines 33-53. *)
Definition build_prompt (req : RoadmapRequest) : str :=
  let custom_context :=
    match custom_prompt req with
    | [] => []
    | _ :: _ => lit " " ++ custom_prompt req
    end in
  lit "Create a Mermaid flowchart for learning " ++ skill req ++ lit "." ++ nl
  ++ lit "Pace: " ++ speed req ++ lit "." ++ custom_context ++ nl
  ++ unlines prompt_rules.

(** ** The handler (main.py, lines 31-168) *)

(** The answer of Kroki: [status_code] and [text] of the [requests]
    response. *)
Record KrokiResponse : Type := { status_code : Z; kroki_text : str }.

(** A value of a returned dictionary. *)
Inductive value : Type :=
| VStr (s : str)
| VBool (b : bool).

(** A dictionary literal, in the order it is written. *)
Definition dict := list (string * value).

(** A computation that calls the two remote services: each call names its
    arguments and goes on with what the call returned or raised. *)
Inductive call (A : Type) : Type :=
| Ret (a : A)
| GenerateContent (model contents : str)
    (k : outcome GenerateContentResponse -> call A)
| RequestsPost (url : str) (json : list (string * str)) (timeout : nat)
    (k : outcome KrokiResponse -> call A).

Arguments Ret {A} a.
Arguments GenerateContent {A} model contents k.
Arguments RequestsPost {A} url json timeout k.

Fixpoint call_map {A B : Type} (f : A -> B) (p : call A) : call B :=
  match p with
  | Ret a => Ret (f a)
  | GenerateContent model contents k =>
      GenerateContent model contents (fun r => call_map f (k r))
  | RequestsPost url json timeout k =>
      RequestsPost url json timeout (fun r => call_map f (k r))
  end.

(** The dictionaries the handler returns, as their literals are written. *)

(** Line 88. *)
Definition could_not_generate : dict :=
  [ ("error", VStr (lit "Could not generate content")) ]%string.

(** Line 119; [raw] is [mermaid_code[:300]]. *)
Definition no_valid_graph (raw : str) : dict :=
  [ ("error", VStr (lit "No valid graph found")); ("raw", VStr raw) ]%string.

(** Lines 141-145. *)
Definition success_result (mermaid_code svg : str) : dict :=
  [ ("mermaid", VStr mermaid_code); ("svg", VStr svg); ("success", VBool true) ]%string.

(** Lines 152-156. *)
Definition syntax_error_result (mermaid_code error_msg : str) : dict :=
  [ ("error", VStr (lit "The generated diagram has syntax errors. Try a simpler request."));
    ("mermaid", VStr mermaid_code);
    ("details", VStr (slice_to 300 error_msg)) ]%string.

(** Lines 158-162. *)
Definition rendering_failed_result (mermaid_code error_msg : str) : dict :=
  [ ("error", VStr (lit "Diagram rendering failed"));
    ("mermaid", VStr mermaid_code);
    ("details", VStr (slice_to 300 error_msg)) ]%string.

(** Lines 164-168: the dictionary of the [except Exception] clause. *)
Definition server_error (e : exn) : dict :=
  [ ("error", VStr (lit "Server error: " ++ str_e e)%list) ]%string.

(** Lines 139-162: the dictionary returned for an answer of Kroki. *)
Definition kroki_result (mermaid_code : str) (kroki_response : KrokiResponse)
  : dict :=
  if (status_code kroki_response =? 200)%Z then
    success_result mermaid_code (kroki_text kroki_response)
  else
    let error_msg := kroki_text kroki_response in
    if contains (lower error_msg) (lit "syntax")
    then syntax_error_result mermaid_code error_msg
    else rendering_failed_result mermaid_code error_msg.

(** Lines 126-135: the address and the body of the request to Kroki. *)
Definition kroki_url : str := lit "https://kroki.io/mermaid/svg".

Definition kroki_json (mermaid_code : str) : list (string * str) :=
  [ ("diagram_source", mermaid_code);
    ("diagram_type", lit "mermaid");
    ("output_format", lit "svg") ]%string.

(** Line 60. *)
Definition model_name : str := lit "gemini-2.5-flash".

(** Lines 87-162, from the extracted text on: what the [try] block does
    once [mermaid_code] is known. An exception of the Kroki call leaves the
    block. *)
Definition after_extraction (mermaid_code : option str) : call (outcome dict) :=
  match mermaid_code with
  | None | Some [] => Ret (Returned could_not_generate)
  | Some ((_ :: _) as code) =>
      match sanitize code with
      | Invalid raw => Ret (Returned (no_valid_graph raw))
      | Valid diagram =>
          RequestsPost kroki_url (kroki_json diagram) 20
            (fun r =>
               match r with
               | Raised e => Ret (Raised e)
               | Returned kroki_response =>
                   Ret (Returned (kroki_result diagram kroki_response))
               end)
      end
  end.

(** Lines 56-162: the body of the outer [try]. *)
Definition try_block (prompt : str) : call (outcome dict) :=
  GenerateContent model_name prompt
    (fun r =>
       match r with
       | Raised e => Ret (Raised e)
       | Returned response => after_extraction (extract_text response)
       end).

(** Lines 31-168: the [try] block under its [except Exception] clause. *)
Definition generate_roadmap (req : RoadmapRequest) : call dict :=
  let prompt := build_prompt req in
  call_map (fun r => match r with
                     | Raised e => server_error e
                     | Returned d => d
                     end)
           (try_block prompt).

(** ** Running the handler against the two services *)

Record World : Type := {
  generate_content : str -> str -> outcome GenerateContentResponse;
  requests_post : str -> list (string * str) -> nat -> outcome KrokiResponse
}.

Inductive event : Type :=
| CalledModel (model contents : str)
| CalledKroki (url : str) (json : list (string * str)) (timeout : nat).

(** The calls made, in order, and the value returned. *)
Fixpoint run {A : Type} (w : World) (p : call A) : list event * A :=
  match p with
  | Ret a => ([], a)
  | GenerateContent model contents k =>
      let (evs, a) := run w (k (generate_content w model contents)) in
      (CalledModel model contents :: evs, a)
  | RequestsPost url json timeout k =>
      let (evs, a) := run w (k (requests_post w url json timeout)) in
      (CalledKroki url json timeout :: evs, a)
  end.

(** ** Stubbed collaborators, for concrete runs *)

(** A response that has the text [t] and no candidates. *)
Definition text_response (t : str) : GenerateContentResponse :=
  {| text := Returned (Some t); candidates := Returned None |}.

(** A response whose only candidate has the given parts; [t] is what
    reading [response.text] does. *)
Definition parts_response (t : outcome (option str)) (ps : list Part)
  : GenerateContentResponse :=
  {| text := t;
     candidates :=
       Returned (Some [ {| content := Returned (Some {| parts := Returned (Some ps) |}) |} ]) |}.

Definition text_part (t : str) : Part := {| part_text := Returned (Some t) |}.

(** A world in which the model and Kroki answer the same whatever they are
    asked. *)
Definition stub_world (model_answer : outcome GenerateContentResponse)
  (kroki_answer : outcome KrokiResponse) : World :=
  {| generate_content := fun _ _ => model_answer;
     requests_post := fun _ _ _ => kroki_answer |}.

Definition go_fast : RoadmapRequest :=
  {| skill := lit "Go"; language := lit "Any"; speed := lit "fast";
     custom_prompt := [] |}.

Definition go_fast_in_rust : RoadmapRequest :=
  {| skill := lit "Go"; language := lit "Rust"; speed := lit "fast";
     custom_prompt := [] |}.

(** The stubbed model text and Kroki answers of the end-to-end example. *)
Definition start_end_graph : str :=
  unlines ["graph TD"; " A[Start] --> B[End]"]%string.

Definition svg_ok : KrokiResponse :=
  {| status_code := 200; kroki_text := lit "<svg/>" |}.

Definition syntax_error_400 : KrokiResponse :=
  {| status_code := 400; kroki_text := lit "Syntax error on line 2" |}.

Definition unavailable_503 : KrokiResponse :=
  {| status_code := 503; kroki_text := lit "Service Unavailable" |}.

Definition value_error (msg : string) : exn :=
  {| is_attribute_error := false; str_e := lit msg |}.

Definition attribute_error (msg : string) : exn :=
  {| is_attribute_error := true; str_e := lit msg |}.

(** ** Notions the statements below use *)

(** The non-empty texts of the parts, in order: a part counts when reading
    its [text] returns a non-empty string. *)
Definition part_texts (ps : list Part) : list str :=
  flat_map (fun part =>
              match part_text part with
              | Returned (Some (c :: s)) => [c :: s]
              | _ => []
              end) ps.

(** Reading the text of the part raises nothing that [hasattr] lets
    through. *)
Definition part_readable (part : Part) : Prop :=
  match part_text part with
  | Raised e => is_attribute_error e = true
  | Returned _ => True
  end.

(** [w] occurs in [s] when letter case is ignored: some stretch of [s] has
    the letters of [w], character by character, up to case. *)
Definition occurs_ignoring_case (w s : str) : Prop :=
  exists pre mid post,
    s = pre ++ mid ++ post /\
    Forall2 (fun a b => lower_char a = lower_char b) mid w.


(** A response on which both extraction methods raise. *)
Definition unreadable_response : GenerateContentResponse :=
  {| text := Raised (value_error "boom");
     candidates := Raised (attribute_error "candidates") |}.

(** ** The shape of what the label clean-up does to a text

    [expands s o]: [o] is [s] with some of its colons replaced by space,
    hyphen, and nothing else changed. *)
Inductive expands : str -> str -> Prop :=
| expands_nil : expands [] []
| expands_copy (c : ascii) (s o : str) :
    expands s o -> expands (c :: s) (c :: o)
| expands_colon (s o : str) :
    expands s o -> expands (":"%char :: s) (" "%char :: "-"%char :: o).

(** Every space of [w] is followed, in [w], by a character other than a
    hyphen: [w] cannot end inside a replaced colon. *)
Fixpoint space_safe (w : str) : bool :=
  match w with
  | [] => true
  | c :: w' =>
      (if Ascii.eqb c " "
       then match w' with
            | [] => false
            | d :: _ => negb (Ascii.eqb d "-")
            end
       else true) && space_safe w'
  end.

Definition no_colon (w : str) : bool :=
  forallb (fun c => negb (Ascii.eqb c ":")) w.

Definition starts_with_hyphen (w : str) : bool :=
  match w with
  | c :: _ => Ascii.eqb c "-"
  | [] => false
  end.

(** The last character of [s] is a whitespace character. *)
Fixpoint ends_with_space (s : str) : bool :=
  match s with
  | [] => false
  | c :: s' =>
      match s' with
      | [] => isspace c
      | _ :: _ => ends_with_space s'
      end
  end.

Definition starts_with_space (s : str) : bool :=
  match s with
  | c :: _ => isspace c
  | [] => false
  end.

(** No line of [mermaid_code], stripped, starts with graph. *)
Definition no_graph_line (mermaid_code : str) : bool :=
  forallb (fun l => negb (startswith (strip l) (lit "graph")))
          (split mermaid_code NL).

(** A line as the label clean-up leaves it: it does not have an opening
    bracket, a closing bracket and a colon all at once. *)
Definition bracket_line_ok (line : str) : bool :=
  negb (contains line (lit "[") && contains line (lit "]")
        && contains line (lit ":")).

(** * Properties *)

(** ** The string operations on small inputs *)

Example split_keeps_empty_fields :
  split (lit "a,b,,c,") ","%char = [lit "a"; lit "b"; []; lit "c"; []].
Proof. reflexivity. Qed.

Example replace_left_to_right :
  replace (lit "a```b`````c") (lit "```") (lit "X") = lit "aXbX``c".
Proof. reflexivity. Qed.

Example strip_both_ends :
  strip (nl ++ lit "  a b " ++ nl) = lit "a b".
Proof. reflexivity. Qed.

Example lower_ascii : lower (lit "Syntax Error [1]") = lit "syntax error [1]".
Proof. reflexivity. Qed.

Example join_lines : join nl [lit "a"; []; lit "b"] = lit "a" ++ nl ++ nl ++ lit "b".
Proof. reflexivity. Qed.

Example prompt_go_fast :
  build_prompt go_fast
  = unlines ("Create a Mermaid flowchart for learning Go." :: "Pace: fast."
             :: prompt_rules)%string.
Proof. reflexivity. Qed.

(** ** Prefixes and occurrences *)

Lemma startswith_iff (p s : str) :
  startswith s p = true <-> exists t, s = p ++ t.
Proof.
  revert s; induction p as [|a p IH]; intros s; simpl.
  - split; [intros _; now exists s | reflexivity].
  - destruct s as [|b s].
    + split; [discriminate | intros [t H]; discriminate].
    + rewrite andb_true_iff, Ascii.eqb_eq, IH. split.
      * intros [-> [t ->]]. now exists t.
      * intros [t H]. injection H as -> ->. split; [reflexivity | now exists t].
Qed.

Lemma startswith_app (p t : str) : startswith (p ++ t) p = true.
Proof. apply startswith_iff. now exists t. Qed.

Lemma contains_iff (w s : str) :
  contains s w = true <-> exists a b, s = a ++ w ++ b.
Proof.
  induction s as [|c s IH].
  - simpl. rewrite orb_false_r, startswith_iff. split.
    + intros [t H]. exists [], t. exact H.
    + intros [a [b H]]. destruct a; [now exists b | discriminate].
  - cbn [contains]. rewrite orb_true_iff, startswith_iff, IH. split.
    + intros [[t H] | [a [b H]]].
      * exists [], t. exact H.
      * exists (c :: a), b. now rewrite H.
    + intros [a [b H]]. destruct a as [|c' a].
      * left. now exists b.
      * right. injection H as _ H. now exists a, b.
Qed.

Lemma contains_false_iff (w s : str) :
  contains s w = false <-> forall a b, s <> a ++ w ++ b.
Proof.
  split.
  - intros H a b E. assert (C : contains s w = true) by (apply contains_iff; eauto).
    congruence.
  - intros H. destruct (contains s w) eqn:C; [|reflexivity].
    apply contains_iff in C. destruct C as [a [b E]]. now destruct (H a b).
Qed.

(** ** The handler, run against a world *)

Lemma run_generate_roadmap (w : World) (req : RoadmapRequest) :
  run w (generate_roadmap req) =
  let asked := CalledModel model_name (build_prompt req) in
  match generate_content w model_name (build_prompt req) with
  | Raised e => ([asked], server_error e)
  | Returned response =>
      match extract_text response with
      | None | Some [] => ([asked], could_not_generate)
      | Some ((_ :: _) as code) =>
          match sanitize code with
          | Invalid raw => ([asked], no_valid_graph raw)
          | Valid diagram =>
              let sent := CalledKroki kroki_url (kroki_json diagram) 20 in
              match requests_post w kroki_url (kroki_json diagram) 20 with
              | Raised e => ([asked; sent], server_error e)
              | Returned kroki_response =>
                  ([asked; sent], kroki_result diagram kroki_response)
              end
          end
      end
  end.
Proof.
  unfold generate_roadmap, try_block. cbn [call_map run].
  destruct (generate_content w model_name (build_prompt req)) as [e|response];
    [reflexivity|].
  unfold after_extraction.
  destruct (extract_text response) as [[|c code]|]; try reflexivity.
  destruct (sanitize (c :: code)) as [diagram|raw]; [|reflexivity].
  cbn [call_map run].
  now destruct (requests_post w kroki_url (kroki_json diagram) 20).
Qed.

Lemma sanitize_valid (code diagram : str) :
  sanitize code = Valid diagram ->
  diagram = clean code /\ has_graph_decl diagram = true.
Proof.
  unfold sanitize. destruct (has_graph_decl (clean code)) eqn:G; intros H.
  - injection H as <-. now split.
  - discriminate.
Qed.

Lemma sanitize_invalid (code raw : str) :
  sanitize code = Invalid raw ->
  raw = firstn 300 (clean code) /\ has_graph_decl (clean code) = false.
Proof.
  unfold sanitize. destruct (has_graph_decl (clean code)) eqn:G; intros H.
  - discriminate.
  - injection H as <-. now split.
Qed.

(** The run of a request whose extracted text was accepted and sent. *)
Lemma run_rendered (w : World) (req : RoadmapRequest)
  (response : GenerateContentResponse) (code diagram : str) :
  generate_content w model_name (build_prompt req) = Returned response ->
  extract_text response = Some code ->
  code <> [] ->
  sanitize code = Valid diagram ->
  run w (generate_roadmap req) =
  ([CalledModel model_name (build_prompt req);
    CalledKroki kroki_url (kroki_json diagram) 20],
   match requests_post w kroki_url (kroki_json diagram) 20 with
   | Raised e => server_error e
   | Returned kroki_response => kroki_result diagram kroki_response
   end).
Proof.
  intros G E N S. rewrite run_generate_roadmap. cbv zeta. rewrite G, E.
  destruct code as [|c code]; [contradiction|]. rewrite S.
  now destruct (requests_post w kroki_url (kroki_json diagram) 20).
Qed.

(** ** The example of the specification *)


(** ** The prompt *)

(** C9: two requests that agree on skill, speed and custom prompt get the
    same prompt, whatever their language fields are. *)
Theorem prompt_ignores_language (r1 r2 : RoadmapRequest) :
  skill r1 = skill r2 ->
  speed r1 = speed r2 ->
  custom_prompt r1 = custom_prompt r2 ->
  build_prompt r1 = build_prompt r2.
Proof.
  intros Hs Hp Hc. unfold build_prompt. now rewrite Hs, Hp, Hc.
Qed.

Lemma prompt_ignores_language_witness :
  language go_fast <> language go_fast_in_rust /\
  build_prompt go_fast = build_prompt go_fast_in_rust.
Proof.
  split.
  - discriminate.
  - apply prompt_ignores_language; reflexivity.
Defined.

(** ** The answer of Kroki *)

(** C10: when Kroki answers with status 200, the handler returns the
    sanitized code as [mermaid], the body of the answer, unchanged and
    whatever it is, as [svg], and [success] set to true. *)
Theorem status_200_returns_body_as_svg (w : World) (req : RoadmapRequest)
  (response : GenerateContentResponse) (code diagram : str)
  (kroki_response : KrokiResponse) :
  generate_content w model_name (build_prompt req) = Returned response ->
  extract_text response = Some code ->
  code <> [] ->
  sanitize code = Valid diagram ->
  requests_post w kroki_url (kroki_json diagram) 20 = Returned kroki_response ->
  status_code kroki_response = 200%Z ->
  snd (run w (generate_roadmap req))
  = [ ("mermaid"%string, VStr diagram);
      ("svg"%string, VStr (kroki_text kroki_response));
      ("success"%string, VBool true) ].
Proof.
  intros G E N S P St. rewrite (run_rendered w req G E N S), P. cbn [snd].
  unfold kroki_result. rewrite St. reflexivity.
Qed.

Lemma status_200_returns_body_as_svg_witness :
  snd (run (stub_world (Returned (text_response start_end_graph)) (Returned svg_ok))
           (generate_roadmap go_fast))
  = [ ("mermaid"%string, VStr (unlines ["graph TD"; " A[Start] --> B[End]"]%string));
      ("svg"%string, VStr (lit "<svg/>"));
      ("success"%string, VBool true) ].
Proof.
  apply (@status_200_returns_body_as_svg
           (stub_world (Returned (text_response start_end_graph)) (Returned svg_ok))
           go_fast (text_response start_end_graph) start_end_graph start_end_graph
           svg_ok);
    try reflexivity.
  discriminate.
Defined.

(** The test of line 151 is an occurrence up to letter case. *)
Lemma lower_fixed_Forall2 (mid w : str) :
  lower mid = w -> lower w = w ->
  Forall2 (fun a b => lower_char a = lower_char b) mid w.
Proof.
  revert w; induction mid as [|a mid IH]; intros w Hm Hw.
  - simpl in Hm. subst w. constructor.
  - simpl in Hm. subst w. simpl in Hw. injection Hw as Ha Hw.
    constructor; [now rewrite Ha | now apply IH].
Qed.

Lemma Forall2_lower (mid w : str) :
  Forall2 (fun a b => lower_char a = lower_char b) mid w -> lower mid = lower w.
Proof.
  induction 1 as [|a b mid w Hab _ IH]; [reflexivity|].
  simpl. now rewrite Hab, IH.
Qed.

Lemma contains_lower_iff (w s : str) :
  lower w = w ->
  contains (lower s) w = true <-> occurs_ignoring_case w s.
Proof.
  intros Hw. rewrite contains_iff. split.
  - intros [a [b H]]. unfold lower in H.
    apply map_eq_app in H. destruct H as [pre [rest [-> [Ha H]]]].
    apply map_eq_app in H. destruct H as [mid [post [-> [Hmid Hb]]]].
    exists pre, mid, post. split; [reflexivity|].
    now apply lower_fixed_Forall2.
  - intros [pre [mid [post [-> F]]]].
    exists (lower pre), (lower post). unfold lower. rewrite !map_app.
    apply Forall2_lower in F. unfold lower in F. rewrite F.
    unfold lower in Hw. now rewrite Hw.
Qed.

(** C6: when Kroki answers with a status other than 200, the handler
    returns an error dictionary whose [mermaid] is the sanitized code and
    whose [details] are the first 300 characters of the body; the message
    speaks of syntax errors when syntax occurs in the body, letter case
    ignored, and of a failed rendering otherwise. *)
Theorem non_200_returns_error (w : World) (req : RoadmapRequest)
  (response : GenerateContentResponse) (code diagram : str)
  (kroki_response : KrokiResponse) :
  generate_content w model_name (build_prompt req) = Returned response ->
  extract_text response = Some code ->
  code <> [] ->
  sanitize code = Valid diagram ->
  requests_post w kroki_url (kroki_json diagram) 20 = Returned kroki_response ->
  status_code kroki_response <> 200%Z ->
  (occurs_ignoring_case (lit "syntax") (kroki_text kroki_response) ->
   snd (run w (generate_roadmap req))
   = [ ("error"%string,
        VStr (lit "The generated diagram has syntax errors. Try a simpler request."));
       ("mermaid"%string, VStr diagram);
       ("details"%string, VStr (firstn 300 (kroki_text kroki_response))) ]) /\
  (~ occurs_ignoring_case (lit "syntax") (kroki_text kroki_response) ->
   snd (run w (generate_roadmap req))
   = [ ("error"%string, VStr (lit "Diagram rendering failed"));
       ("mermaid"%string, VStr diagram);
       ("details"%string, VStr (firstn 300 (kroki_text kroki_response))) ]).
Proof.
  intros G E N S P St. rewrite (run_rendered w req G E N S), P. cbn [snd].
  unfold kroki_result. apply Z.eqb_neq in St. rewrite St.
  pose proof (@contains_lower_iff (lit "syntax") (kroki_text kroki_response)
                eq_refl) as L.
  destruct (contains (lower (kroki_text kroki_response)) (lit "syntax")).
  - split; [reflexivity|]. intros H. destruct H. now apply L.
  - split; [|reflexivity]. intros H. apply L in H. discriminate.
Qed.

Lemma non_200_returns_error_witness :
  snd (run (stub_world (Returned (text_response start_end_graph))
                       (Returned syntax_error_400))
           (generate_roadmap go_fast))
  = [ ("error"%string,
       VStr (lit "The generated diagram has syntax errors. Try a simpler request."));
      ("mermaid"%string, VStr (unlines ["graph TD"; " A[Start] --> B[End]"]%string));
      ("details"%string, VStr (lit "Syntax error on line 2")) ].
Proof.
  apply (proj1 (@non_200_returns_error
           (stub_world (Returned (text_response start_end_graph))
                       (Returned syntax_error_400))
           go_fast (text_response start_end_graph) start_end_graph start_end_graph
           syntax_error_400 eq_refl eq_refl
           ltac:(discriminate) eq_refl eq_refl ltac:(discriminate))).
  exists [], (lit "Syntax"), (lit " error on line 2").
  split; [reflexivity|]. repeat constructor.
Defined.

(** ** Text extraction *)

Lemma join_empty_sep (ls : list str) : join [] ls = List.concat ls.
Proof.
  induction ls as [|l ls IH]; [reflexivity|].
  cbn [join List.concat]. destruct ls as [|l' ls].
  - simpl. now rewrite app_nil_r.
  - now rewrite IH.
Qed.

Lemma collect_text_parts_readable (ps : list Part) (text_parts : list str) :
  Forall part_readable ps ->
  collect_text_parts ps text_parts = Returned (text_parts ++ part_texts ps).
Proof.
  intros F. revert text_parts.
  induction F as [|part ps R _ IH]; intros text_parts.
  - simpl. now rewrite app_nil_r.
  - cbn [collect_text_parts part_texts flat_map]. unfold part_readable in R.
    destruct (part_text part) as [e|[[|c s]|]]; simpl.
    + rewrite R. simpl. apply IH.
    + apply IH.
    + rewrite IH. now rewrite <- app_assoc.
    + apply IH.
Qed.

Lemma method1_cases (response : GenerateContentResponse) :
  method1 response =
  match text response with
  | Returned t => Returned t
  | Raised e => if is_attribute_error e then Returned None else Raised e
  end.
Proof.
  unfold method1. destruct (text response) as [e|t]; simpl; [|reflexivity].
  now destruct (is_attribute_error e).
Qed.

(** C1, as the code has it: the candidates are looked at only when reading
    the direct text raised (an exception that [hasattr] lets through). Then,
    for a first candidate with content and parts whose texts can be read,
    the extractor gives the non-empty part texts joined in order with no
    separator, and nothing when there is none. When the direct text is read
    without an exception, or is missing, its value is the result, empty or
    [None] included. *)
Theorem extract_text_cases (response : GenerateContentResponse) :
  (forall t, text response = Returned t -> extract_text response = t) /\
  (forall e, text response = Raised e -> is_attribute_error e = true ->
             extract_text response = None) /\
  (forall e candidate rest cont ps,
      text response = Raised e -> is_attribute_error e = false ->
      candidates response = Returned (Some (candidate :: rest)) ->
      content candidate = Returned (Some cont) ->
      parts cont = Returned (Some ps) ->
      Forall part_readable ps ->
      extract_text response =
      match part_texts ps with
      | [] => None
      | _ :: _ => Some (List.concat (part_texts ps))
      end).
Proof.
  unfold extract_text. rewrite method1_cases. repeat split.
  - intros t ->. reflexivity.
  - intros e -> ->. reflexivity.
  - intros e candidate rest cont ps -> -> C1 C2 C3 F.
    unfold method2. rewrite C1. cbn [bind]. rewrite C2. cbn [bind].
    rewrite C3. cbn [bind].
    destruct ps as [|p ps]; [reflexivity|].
    rewrite (collect_text_parts_readable [] F). cbn [bind app].
    destruct (part_texts (p :: ps)); [reflexivity|].
    now rewrite join_empty_sep.
Qed.

Lemma extract_text_cases_witness :
  extract_text (parts_response (Raised (value_error "no text"))
                  [text_part (lit "graph TD"); text_part []; text_part nl;
                   text_part (lit "A --> B")])
  = Some (unlines ["graph TD"; "A --> B"]%string).
Proof.
  apply (proj2 (proj2 (extract_text_cases
           (parts_response (Raised (value_error "no text"))
              [text_part (lit "graph TD"); text_part []; text_part nl;
               text_part (lit "A --> B")])))
           (value_error "no text") _ [] _ _ eq_refl eq_refl eq_refl eq_refl eq_refl).
  repeat constructor.
Defined.

(** C1 as stated fails: with the direct text empty, [None] or missing, the
    candidates are not read, although they hold a text. *)
Lemma candidates_ignored_without_exception :
  extract_text (parts_response (Returned (Some [])) [text_part (lit "graph TD")])
    <> Some (lit "graph TD") /\
  extract_text (parts_response (Returned None) [text_part (lit "graph TD")])
    <> Some (lit "graph TD") /\
  extract_text (parts_response (Raised (attribute_error "text"))
                  [text_part (lit "graph TD")])
    <> Some (lit "graph TD").
Proof. repeat split; discriminate. Qed.

(** ** What is sent to Kroki *)

(** C4: every request to Kroki that a run of the handler makes carries, as
    [diagram_source], a text that contains graph TD or graph LR. *)
Theorem kroki_gets_graph_declaration (w : World) (req : RoadmapRequest)
  (url : str) (json : list (string * str)) (timeout : nat) :
  In (CalledKroki url json timeout) (fst (run w (generate_roadmap req))) ->
  exists diagram,
    json = kroki_json diagram /\
    (contains diagram (lit "graph TD") = true \/
     contains diagram (lit "graph LR") = true).
Proof.
  rewrite run_generate_roadmap. cbv zeta.
  destruct (generate_content w model_name (build_prompt req)) as [e|response].
  { simpl. intros [H|[]]. discriminate. }
  destruct (extract_text response) as [[|c code]|].
  1, 3: simpl; intros [H|[]]; discriminate.
  destruct (sanitize (c :: code)) as [diagram|raw] eqn:S.
  2: simpl; intros [H|[]]; discriminate.
  apply sanitize_valid in S. destruct S as [_ V].
  intros H. exists diagram. split.
  - destruct (requests_post w kroki_url (kroki_json diagram) 20);
      simpl in H; destruct H as [H|[H|[]]]; try discriminate;
      now injection H as _ <- _.
  - unfold has_graph_decl in V. now apply orb_true_iff in V.
Qed.

Lemma kroki_gets_graph_declaration_witness :
  exists diagram,
    kroki_json start_end_graph = kroki_json diagram /\
    (contains diagram (lit "graph TD") = true \/
     contains diagram (lit "graph LR") = true).
Proof.
  apply (@kroki_gets_graph_declaration
           (stub_world (Returned (text_response start_end_graph)) (Returned svg_ok))
           go_fast kroki_url (kroki_json start_end_graph) 20).
  vm_compute. right. left. reflexivity.
Defined.

(** ** Exceptions *)

Lemma server_error_not_other (e : exn) (d : dict) :
  d = could_not_generate \/
  (exists raw, d = no_valid_graph raw) \/
  (exists diagram kroki_response, d = kroki_result diagram kroki_response) ->
  d <> server_error e.
Proof.
  intros [->|[[raw ->]|[diagram [kr ->]]]]; try discriminate.
  unfold kroki_result.
  destruct (status_code kr =? 200)%Z; [discriminate|].
  destruct (contains (lower (kroki_text kr)) (lit "syntax")); discriminate.
Qed.

(** C8, as the code has it, for the exceptions the handlers catch (the
    instances of [Exception]): an exception of the call to the model or of
    the call to Kroki is caught by the outer handler and returned as
    Server error followed by its message; a run returns such a dictionary
    only then, with the message of the exception that this call raised
    (the exceptions raised while the response is read are caught by the
    handlers of the extraction); and every run returns a dictionary that
    has an [error] entry or [success] set to true. *)
Theorem handler_catches_exceptions (w : World) (req : RoadmapRequest) :
  (forall e,
      generate_content w model_name (build_prompt req) = Raised e ->
      snd (run w (generate_roadmap req))
      = [ ("error"%string, VStr (lit "Server error: " ++ str_e e)) ]) /\
  (forall response code diagram e,
      generate_content w model_name (build_prompt req) = Returned response ->
      extract_text response = Some code ->
      code <> [] ->
      sanitize code = Valid diagram ->
      requests_post w kroki_url (kroki_json diagram) 20 = Raised e ->
      snd (run w (generate_roadmap req))
      = [ ("error"%string, VStr (lit "Server error: " ++ str_e e)) ]) /\
  (forall msg,
      snd (run w (generate_roadmap req))
      = [ ("error"%string, VStr (lit "Server error: " ++ msg)) ] ->
      (exists e,
          generate_content w model_name (build_prompt req) = Raised e /\
          str_e e = msg) \/
      (exists response code diagram e,
          generate_content w model_name (build_prompt req) = Returned response /\
          extract_text response = Some code /\
          code <> [] /\
          sanitize code = Valid diagram /\
          fst (run w (generate_roadmap req))
          = [CalledModel model_name (build_prompt req);
             CalledKroki kroki_url (kroki_json diagram) 20] /\
          requests_post w kroki_url (kroki_json diagram) 20 = Raised e /\
          str_e e = msg)) /\
  ((exists msg, In ("error"%string, VStr msg) (snd (run w (generate_roadmap req)))) \/
   In ("success"%string, VBool true) (snd (run w (generate_roadmap req)))).
Proof.
  assert (M : forall e msg,
             server_error e = [ ("error"%string, VStr (lit "Server error: " ++ msg)) ] ->
             str_e e = msg).
  { intros e msg H. unfold server_error in H. now injection H as H. }
  repeat split.
  - intros e G. rewrite run_generate_roadmap. cbv zeta. now rewrite G.
  - intros response code diagram e G E N S P.
    now rewrite (run_rendered w req G E N S), P.
  - intros msg. rewrite run_generate_roadmap. cbv zeta.
    destruct (generate_content w model_name (build_prompt req)) as [e'|response].
    { cbn [snd]. intros H. left. exists e'. split; [reflexivity | now apply M]. }
    destruct (extract_text response) as [[|c code]|] eqn:E; cbn [snd]; intros H.
    1, 3: exfalso; revert H;
      apply (@server_error_not_other {| is_attribute_error := false; str_e := msg |});
      now left.
    destruct (sanitize (c :: code)) as [diagram|raw] eqn:S.
    2: exfalso; revert H;
      apply (@server_error_not_other {| is_attribute_error := false; str_e := msg |});
      right; left; now exists raw.
    destruct (requests_post w kroki_url (kroki_json diagram) 20) as [e'|kr] eqn:P.
    + right. exists response, (c :: code), diagram, e'.
      repeat split; try reflexivity; try assumption; try discriminate.
      cbn [snd] in H. now apply M.
    + exfalso. revert H.
      apply (@server_error_not_other {| is_attribute_error := false; str_e := msg |}).
      right. right. now exists diagram, kr.
  - rewrite run_generate_roadmap. cbv zeta.
    destruct (generate_content w model_name (build_prompt req)) as [e|response].
    { left. eexists. left. reflexivity. }
    destruct (extract_text response) as [[|c code]|].
    1, 3: left; eexists; left; reflexivity.
    destruct (sanitize (c :: code)) as [diagram|raw].
    2: left; eexists; left; reflexivity.
    destruct (requests_post w kroki_url (kroki_json diagram) 20) as [e|kr].
    { left. eexists. left. reflexivity. }
    cbn [snd]. unfold kroki_result.
    destruct (status_code kr =? 200)%Z.
    { right. simpl. tauto. }
    destruct (contains (lower (kroki_text kr)) (lit "syntax"));
      left; eexists; left; reflexivity.
Qed.

Lemma handler_catches_exceptions_witness :
  snd (run (stub_world (Raised (value_error "quota exceeded")) (Returned svg_ok))
           (generate_roadmap go_fast))
  = [ ("error"%string, VStr (lit "Server error: quota exceeded")) ] /\
  snd (run (stub_world (Returned (text_response start_end_graph))
                       (Raised (value_error "timed out")))
           (generate_roadmap go_fast))
  = [ ("error"%string, VStr (lit "Server error: timed out")) ].
Proof.
  split.
  - apply (proj1 (handler_catches_exceptions
                    (stub_world (Raised (value_error "quota exceeded")) (Returned svg_ok))
                    go_fast) (value_error "quota exceeded") eq_refl).
  - apply (proj1 (proj2 (handler_catches_exceptions
                    (stub_world (Returned (text_response start_end_graph))
                                (Raised (value_error "timed out")))
                    go_fast))
             (text_response start_end_graph) start_end_graph start_end_graph
             (value_error "timed out") eq_refl eq_refl).
    + discriminate.
    + reflexivity.
    + reflexivity.
Defined.

(** C8 as stated fails for the exceptions raised while the response is
    read: when both extraction methods raise, the handler answers that no
    content could be generated, not with a server error. *)
Lemma extraction_exceptions_not_server_errors :
  method1 unreadable_response = Raised (value_error "boom") /\
  method2 unreadable_response = Raised (attribute_error "candidates") /\
  snd (run (stub_world (Returned unreadable_response) (Returned svg_ok))
           (generate_roadmap go_fast))
  = [ ("error"%string, VStr (lit "Could not generate content")) ] /\
  snd (run (stub_world (Returned unreadable_response) (Returned svg_ok))
           (generate_roadmap go_fast))
  <> [ ("error"%string, VStr (lit "Server error: boom")) ] /\
  snd (run (stub_world (Returned unreadable_response) (Returned svg_ok))
           (generate_roadmap go_fast))
  <> [ ("error"%string, VStr (lit "Server error: candidates")) ].
Proof. repeat split; discriminate. Qed.

(** ** Replaced colons and occurrences *)

Lemma expands_refl (s : str) : expands s s.
Proof. induction s; constructor; assumption. Qed.

Lemma expands_app (s1 o1 s2 o2 : str) :
  expands s1 o1 -> expands s2 o2 -> expands (s1 ++ s2) (o1 ++ o2).
Proof. induction 1; intros H2; simpl; try constructor; auto. Qed.

Lemma expands_nil_inv (o : str) : expands [] o -> o = [].
Proof. now inversion 1. Qed.

Lemma expands_nonempty (s o : str) : expands s o -> s <> [] -> o <> [].
Proof. destruct 1; intros N; [contradiction | discriminate | discriminate]. Qed.

(** An occurrence at the head of the result was at the head of the source. *)
Lemma expands_startswith_back (s o : str) :
  expands s o ->
  forall w, space_safe w = true -> startswith o w = true -> startswith s w = true.
Proof.
  induction 1 as [|c s o E IH|s o E IH]; intros w Sw Hw.
  - destruct w; [reflexivity | discriminate].
  - destruct w as [|a w]; [reflexivity|].
    simpl in Hw |- *. apply andb_true_iff in Hw. destruct Hw as [Ha Hw].
    rewrite Ha. simpl. apply IH; [|exact Hw].
    simpl in Sw. apply andb_true_iff in Sw. tauto.
  - destruct w as [|a w]; [reflexivity|]. exfalso.
    simpl in Hw. apply andb_true_iff in Hw. destruct Hw as [Ha Hw].
    apply Ascii.eqb_eq in Ha. subst a.
    simpl in Sw. destruct w as [|b w]; [discriminate|].
    simpl in Hw. apply andb_true_iff in Hw. destruct Hw as [Hb _].
    apply Ascii.eqb_eq in Hb. subst b. discriminate.
Qed.

(** An occurrence in the result was in the source. *)
Lemma expands_contains_back (s o : str) :
  expands s o ->
  forall w, space_safe w = true -> starts_with_hyphen w = false ->
            contains o w = true -> contains s w = true.
Proof.
  induction 1 as [|c s o E IH|s o E IH]; intros w Sw Hy Hw.
  - exact Hw.
  - cbn [contains] in Hw |- *. apply orb_true_iff in Hw. apply orb_true_iff.
    destruct Hw as [Hw|Hw].
    + left. apply (expands_startswith_back (expands_copy c E)); assumption.
    + right. now apply IH.
  - cbn [contains] in Hw |- *. apply orb_true_iff.
    apply orb_true_iff in Hw. destruct Hw as [Hw|Hw].
    + left. apply (expands_startswith_back (expands_colon E)); assumption.
    + apply orb_true_iff in Hw. destruct Hw as [Hw|Hw].
      * destruct w as [|a w]; [left; reflexivity|]. exfalso.
        simpl in Hw. apply andb_true_iff in Hw. destruct Hw as [Ha _].
        simpl in Hy. apply Ascii.eqb_eq in Ha. subst a. discriminate.
      * right. now apply IH.
Qed.

(** An occurrence of a text without colon stays where it is. *)
Lemma expands_startswith_fwd (s o : str) :
  expands s o ->
  forall w, no_colon w = true -> startswith s w = true -> startswith o w = true.
Proof.
  induction 1 as [|c s o E IH|s o E IH]; intros w Nw Hw.
  - destruct w; [reflexivity | discriminate].
  - destruct w as [|a w]; [reflexivity|].
    simpl in Hw |- *. apply andb_true_iff in Hw. destruct Hw as [Ha Hw].
    rewrite Ha. simpl. apply IH; [|exact Hw].
    simpl in Nw. apply andb_true_iff in Nw. tauto.
  - destruct w as [|a w]; [reflexivity|]. exfalso.
    simpl in Hw. apply andb_true_iff in Hw. destruct Hw as [Ha _].
    simpl in Nw. apply andb_true_iff in Nw. destruct Nw as [Na _].
    apply Ascii.eqb_eq in Ha. subst a. discriminate.
Qed.

Lemma expands_contains_fwd (s o : str) :
  expands s o ->
  forall w, no_colon w = true -> contains s w = true -> contains o w = true.
Proof.
  induction 1 as [|c s o E IH|s o E IH]; intros w Nw Hw.
  - exact Hw.
  - cbn [contains] in Hw |- *. apply orb_true_iff in Hw. apply orb_true_iff.
    destruct Hw as [Hw|Hw].
    + left. apply (expands_startswith_fwd (expands_copy c E)); assumption.
    + right. now apply IH.
  - cbn [contains] in Hw |- *. apply orb_true_iff in Hw.
    destruct Hw as [Hw|Hw].
    + apply orb_true_iff. left.
      apply (expands_startswith_fwd (expands_colon E)); assumption.
    + apply orb_true_iff. right. apply orb_true_iff. right. now apply IH.
Qed.

(** The last character stays a non-space. *)
Lemma expands_ends_with_space (s o : str) :
  expands s o -> ends_with_space s = false -> ends_with_space o = false.
Proof.
  induction 1 as [|c s o E IH|s o E IH]; intros H.
  - reflexivity.
  - destruct s as [|c' s].
    + apply expands_nil_inv in E. now subst o.
    + assert (N : o <> []) by (apply (expands_nonempty E); discriminate).
      destruct o as [|d o]; [contradiction|].
      cbn [ends_with_space] in H |- *. now apply IH.
  - destruct s as [|c' s].
    + apply expands_nil_inv in E. now subst o.
    + assert (N : o <> []) by (apply (expands_nonempty E); discriminate).
      destruct o as [|d o]; [contradiction|].
      cbn [ends_with_space] in H |- *. now apply IH.
Qed.

(** ** Lines *)

Lemma split_nonempty (s : str) (sep : ascii) : split s sep <> [].
Proof.
  destruct s as [|c s]; simpl; [discriminate|].
  destruct (Ascii.eqb c sep); [discriminate|].
  destruct (split s sep); discriminate.
Qed.

Lemma join_cons (sep l : str) (ls : list str) :
  ls <> [] -> join sep (l :: ls) = l ++ sep ++ join sep ls.
Proof. destruct ls; [contradiction | reflexivity]. Qed.

Lemma join_split (s : str) : join nl (split s NL) = s.
Proof.
  induction s as [|c s IH]; [reflexivity|].
  cbn [split]. destruct (Ascii.eqb c NL) eqn:E.
  - apply Ascii.eqb_eq in E. subst c.
    rewrite join_cons by apply split_nonempty. now rewrite IH.
  - pose proof (split_nonempty s NL) as N.
    destruct (split s NL) as [|l ls]; [contradiction|].
    destruct ls as [|l' ls]; cbn [join] in IH |- *.
    + now rewrite IH.
    + simpl. now rewrite <- IH.
Qed.

Lemma split_lines_no_newline (s : str) :
  Forall (fun l => ~ In NL l) (split s NL).
Proof.
  induction s as [|c s IH]; simpl.
  - constructor; [tauto | constructor].
  - destruct (Ascii.eqb c NL) eqn:E.
    + constructor; [tauto | exact IH].
    + destruct (split s NL) as [|l ls]; [repeat constructor; simpl; intros [H|[]]; subst c; now rewrite Ascii.eqb_refl in E|].
      inversion IH as [|? ? Hl Hls]; subst. constructor; [|exact Hls].
      intros [H|H]; [|now apply Hl]. subst c. now rewrite Ascii.eqb_refl in E.
Qed.

Lemma split_one_line (l : str) : ~ In NL l -> split l NL = [l].
Proof.
  induction l as [|c l IH]; intros H; [reflexivity|].
  simpl. destruct (Ascii.eqb c NL) eqn:E.
  - apply Ascii.eqb_eq in E. subst c. destruct H. now left.
  - rewrite IH; [reflexivity|]. intros I. apply H. now right.
Qed.

Lemma split_app_newline (l t : str) :
  ~ In NL l -> split (l ++ NL :: t) NL = l :: split t NL.
Proof.
  induction l as [|c l IH]; intros H.
  - simpl. reflexivity.
  - simpl. destruct (Ascii.eqb c NL) eqn:E.
    + apply Ascii.eqb_eq in E. subst c. destruct H. now left.
    + rewrite IH; [reflexivity|]. intros I. apply H. now right.
Qed.

Lemma split_join (ls : list str) :
  ls <> [] -> Forall (fun l => ~ In NL l) ls -> split (join nl ls) NL = ls.
Proof.
  induction ls as [|l ls IH]; intros N F; [contradiction|].
  inversion F as [|? ? Hl Hls]; subst.
  destruct ls as [|l' ls].
  - simpl. now apply split_one_line.
  - rewrite join_cons by discriminate.
    change (nl ++ join nl (l' :: ls)) with (NL :: join nl (l' :: ls)).
    rewrite split_app_newline by exact Hl.
    rewrite IH; [reflexivity | discriminate | exact Hls].
Qed.

Lemma join_skipn_suffix (ls : list str) (i : nat) :
  exists pre, join nl ls = pre ++ join nl (skipn i ls).
Proof.
  revert ls; induction i as [|i IH]; intros ls.
  - exists []. reflexivity.
  - destruct ls as [|l ls]; [exists []; reflexivity|].
    cbn [skipn]. destruct (IH ls) as [pre H].
    destruct ls as [|l' ls].
    + exists l. rewrite skipn_nil. simpl. now rewrite app_nil_r.
    + exists (l ++ nl ++ pre). rewrite join_cons by discriminate.
      rewrite H. now rewrite <- !app_assoc.
Qed.

Lemma expands_join (ls ls' : list str) :
  Forall2 expands ls ls' -> expands (join nl ls) (join nl ls').
Proof.
  induction 1 as [|l l' ls ls' E F IH]; [constructor|].
  destruct F as [|l2 l2' ls ls' E2 F].
  - exact E.
  - rewrite !join_cons by discriminate.
    apply expands_app; [exact E|].
    apply expands_app; [apply expands_refl | exact IH].
Qed.

(** ** Replacements *)

Lemma replace_absent (s old new : str) :
  contains s old = false -> replace s old new = s.
Proof.
  unfold replace. induction s as [|c s IH]; intros H; [reflexivity|].
  cbn [contains] in H. apply orb_false_iff in H. destruct H as [H1 H2].
  cbn [replace_from]. rewrite H1. now rewrite IH.
Qed.

Lemma replace_colon_cons (c : ascii) (s : str) :
  replace (c :: s) (lit ":") (lit " -") =
  if Ascii.eqb ":" c then " "%char :: "-"%char :: replace s (lit ":") (lit " -")
  else c :: replace s (lit ":") (lit " -").
Proof.
  unfold replace. cbn [replace_from lit list_ascii_of_string startswith].
  rewrite andb_true_r. now destruct (Ascii.eqb ":" c).
Qed.

Lemma expands_replace_colon (s : str) :
  expands s (replace s (lit ":") (lit " -")).
Proof.
  induction s as [|c s IH]; [constructor|].
  rewrite replace_colon_cons. destruct (Ascii.eqb ":" c) eqn:E.
  - apply Ascii.eqb_eq in E. subst c. now constructor.
  - now constructor.
Qed.

Lemma replace_colon_no_colon (s : str) :
  contains (replace s (lit ":") (lit " -")) (lit ":") = false.
Proof.
  induction s as [|c s IH]; [reflexivity|].
  rewrite replace_colon_cons. destruct (Ascii.eqb ":" c) eqn:E.
  - cbn [contains]. rewrite IH. reflexivity.
  - cbn [contains]. rewrite IH.
    cbn [lit list_ascii_of_string startswith]. rewrite E. reflexivity.
Qed.

Lemma expands_clean_line (l : str) : expands l (clean_line l).
Proof.
  unfold clean_line.
  destruct (contains l (lit "[") && contains l (lit "]"));
    [apply expands_replace_colon | apply expands_refl].
Qed.

Lemma expands_clean_labels (s : str) : expands s (clean_labels s).
Proof.
  unfold clean_labels. rewrite <- (join_split s) at 1.
  apply expands_join. induction (split s NL); constructor;
    [apply expands_clean_line | assumption].
Qed.

(** ** The search for the graph line *)

Lemma graph_line_index_none (lines : list str) :
  graph_line_index lines = None <->
  forallb (fun l => negb (startswith (strip l) (lit "graph"))) lines = true.
Proof.
  induction lines as [|l lines IH]; [simpl; tauto|].
  cbn [graph_line_index forallb].
  destruct (startswith (strip l) (lit "graph")); simpl.
  - split; discriminate.
  - rewrite <- IH. destruct (graph_line_index lines); simpl; split; congruence.
Qed.

Lemma graph_line_index_some (lines : list str) (i : nat) :
  graph_line_index lines = Some i ->
  exists l rest,
    skipn i lines = l :: rest /\ startswith (strip l) (lit "graph") = true.
Proof.
  revert i; induction lines as [|l lines IH]; intros i H; [discriminate|].
  cbn [graph_line_index] in H.
  destruct (startswith (strip l) (lit "graph")) eqn:G.
  - injection H as <-. now exists l, lines.
  - destruct (graph_line_index lines) as [j|]; [|discriminate].
    injection H as <-. cbn [skipn]. now apply IH.
Qed.


(** The label clean-up neither makes nor unmakes a graph declaration. *)
Lemma has_graph_decl_clean_labels (c : str) :
  has_graph_decl (clean_labels c) = has_graph_decl c.
Proof.
  pose proof (expands_clean_labels c) as E. unfold has_graph_decl.
  assert (K : forall w, space_safe w = true -> starts_with_hyphen w = false ->
                        no_colon w = true ->
                        contains (clean_labels c) w = contains c w).
  { intros w S1 S2 S3. destruct (contains c w) eqn:C.
    - now apply (expands_contains_fwd E).
    - destruct (contains (clean_labels c) w) eqn:C'; [|reflexivity].
      rewrite <- C. symmetry. now apply (expands_contains_back E). }
  now rewrite !K.
Qed.

(** ** Refused texts *)




(** ** Fences *)

Lemma replace_fence_hit (r : str) :
  replace (lit "```" ++ r) (lit "```") [] = replace r (lit "```") [].
Proof. reflexivity. Qed.

Lemma replace_miss (c : ascii) (s old new : str) :
  startswith (c :: s) old = false ->
  replace (c :: s) old new = c :: replace s old new.
Proof. intros H. unfold replace. cbn [replace_from]. now rewrite H. Qed.

Lemma startswith_shorter (s p q : str) :
  startswith s (p ++ q) = true -> startswith s p = true.
Proof.
  rewrite !startswith_iff. intros [t ->]. exists (q ++ t). now rewrite app_assoc.
Qed.

Lemma startswith_shorter_false (s p q : str) :
  startswith s p = false -> startswith s (p ++ q) = false.
Proof.
  intros H. destruct (startswith s (p ++ q)) eqn:E; [|reflexivity].
  apply startswith_shorter in E. congruence.
Qed.

Lemma replace_fence_head1 (s : str) :
  startswith s (lit "`") = false ->
  startswith (replace s (lit "```") []) (lit "`") = false.
Proof.
  destruct s as [|c s]; intros H; [reflexivity|].
  rewrite replace_miss.
  - cbn [lit list_ascii_of_string startswith] in H |- *. exact H.
  - apply (startswith_shorter_false (c :: s) (lit "`") (lit "``") H).
Qed.

Lemma replace_fence_head2 (s : str) :
  startswith s (lit "``") = false ->
  startswith (replace s (lit "```") []) (lit "``") = false.
Proof.
  destruct s as [|c s]; intros H; [reflexivity|].
  rewrite replace_miss.
  - cbn [lit list_ascii_of_string startswith] in H |- *.
    destruct (Ascii.eqb "`" c); [|reflexivity]. simpl in H |- *.
    apply (replace_fence_head1 s).
    cbn [lit list_ascii_of_string startswith]. exact H.
  - apply (startswith_shorter_false (c :: s) (lit "``") (lit "`") H).
Qed.

Lemma replace_fence_head3 (s : str) :
  startswith s (lit "```") = false ->
  startswith (replace s (lit "```") []) (lit "```") = false.
Proof.
  destruct s as [|c s]; intros H; [reflexivity|].
  rewrite replace_miss by exact H.
  cbn [lit list_ascii_of_string startswith] in H |- *.
  destruct (Ascii.eqb "`" c); [|reflexivity]. simpl in H |- *.
  apply (replace_fence_head2 s).
  cbn [lit list_ascii_of_string startswith]. exact H.
Qed.

(** After line 93 no fence marker is left. *)
Lemma replace_fence_no_fence (s : str) :
  contains (replace s (lit "```") []) (lit "```") = false.
Proof.
  assert (K : forall n s, List.length s <= n ->
                          contains (replace s (lit "```") []) (lit "```") = false).
  { clear s. induction n as [|n IH]; intros s L.
    - destruct s; [reflexivity | simpl in L; lia].
    - destruct s as [|c s]; [reflexivity|].
      destruct (startswith (c :: s) (lit "```")) eqn:H.
      + apply startswith_iff in H. destruct H as [r H]. rewrite H.
        rewrite replace_fence_hit. apply IH.
        apply (f_equal (@List.length ascii)) in H. simpl in H, L. lia.
      + pose proof (replace_fence_head3 (c :: s) H) as H3.
        rewrite replace_miss in H3 |- * by exact H.
        cbn [contains]. rewrite H3. simpl. apply IH. simpl in L. lia. }
  apply (K (List.length s)). lia.
Qed.

(** ** Stripping *)

Lemma lstrip_suffix (s : str) :
  exists a, s = a ++ lstrip s /\ forallb isspace a = true.
Proof.
  induction s as [|c s [a [H F]]].
  - now exists [].
  - simpl. destruct (isspace c) eqn:E.
    + exists (c :: a). simpl. rewrite E, F. split; [now f_equal | reflexivity].
    + now exists [].
Qed.

Lemma rstrip_prefix (s : str) :
  exists b, s = rstrip s ++ b /\ forallb isspace b = true.
Proof.
  unfold rstrip. destruct (lstrip_suffix (rev s)) as [a [H F]].
  exists (rev a). split.
  - rewrite <- rev_app_distr, <- H. now rewrite rev_involutive.
  - rewrite forallb_forall in F |- *. intros x I. apply F. now apply in_rev.
Qed.

Lemma strip_infix (s : str) : exists a b, s = a ++ strip s ++ b.
Proof.
  unfold strip. destruct (lstrip_suffix s) as [a [Ha _]].
  destruct (rstrip_prefix (lstrip s)) as [b [Hb _]].
  exists a, b. now rewrite <- Hb.
Qed.

Lemma contains_infix (s t a b w : str) :
  s = a ++ t ++ b -> contains t w = true -> contains s w = true.
Proof.
  intros -> H. apply contains_iff in H. destruct H as [x [y ->]].
  apply contains_iff. exists (a ++ x), (y ++ b). now rewrite <- !app_assoc.
Qed.

Lemma contains_infix_false (s t a b w : str) :
  s = a ++ t ++ b -> contains s w = false -> contains t w = false.
Proof.
  intros E H. destruct (contains t w) eqn:C; [|reflexivity].
  rewrite (@contains_infix _ _ _ _ _ E C) in H. discriminate.
Qed.

Lemma strip_fences_no_fence (code : str) :
  contains (strip_fences code) (lit "```") = false.
Proof.
  unfold strip_fences. cbv zeta.
  destruct (strip_infix (replace (replace (strip code) (lit "```mermaid") [])
                                 (lit "```") [])) as [a [b E]].
  apply (@contains_infix_false _ _ _ _ _ E). apply replace_fence_no_fence.
Qed.

Lemma find_graph_start_suffix (c : str) :
  exists pre, c = pre ++ find_graph_start c.
Proof.
  unfold find_graph_start. destruct (startswith c (lit "graph")).
  - now exists [].
  - cbv zeta. destruct (graph_line_index (split c NL)) as [i|].
    + destruct (join_skipn_suffix (split c NL) i) as [pre H].
      exists pre. now rewrite <- H, join_split.
    + now exists [].
Qed.

(** No fence marker is left in the cleaned code. *)
Lemma clean_no_fence (code : str) :
  contains (clean code) (lit "```") = false.
Proof.
  unfold clean.
  destruct (contains (clean_labels (find_graph_start (strip_fences code)))
                     (lit "```")) eqn:C; [|reflexivity].
  apply (expands_contains_back (expands_clean_labels _)) in C; try reflexivity.
  destruct (find_graph_start_suffix (strip_fences code)) as [pre E].
  rewrite <- (strip_fences_no_fence code).
  symmetry.
  apply (@contains_infix _ (find_graph_start (strip_fences code)) pre [] _);
    [now rewrite app_nil_r | exact C].
Qed.

(** ** Leading whitespace *)

Lemma lstrip_app (l t : str) : lstrip l <> [] -> lstrip (l ++ t) = lstrip l ++ t.
Proof.
  induction l as [|c l IH]; intros H; [now destruct H|].
  simpl in H |- *. destruct (isspace c); [now apply IH | reflexivity].
Qed.

Lemma lstrip_app_cases (a b : str) :
  lstrip (a ++ b) = match lstrip a with
                    | [] => lstrip b
                    | _ :: _ => lstrip a ++ b
                    end.
Proof.
  induction a as [|c a IH]; [reflexivity|].
  simpl. destruct (isspace c); [exact IH | reflexivity].
Qed.

Lemma lstrip_no_leading_space (s : str) : starts_with_space (lstrip s) = false.
Proof.
  induction s as [|c s IH]; [reflexivity|].
  simpl. destruct (isspace c) eqn:E; [exact IH | simpl; exact E].
Qed.

Lemma lstrip_id (s : str) : starts_with_space s = false -> lstrip s = s.
Proof. destruct s as [|c s]; [reflexivity|]. simpl. now intros ->. Qed.

Lemma startswith_strip_lstrip (l w : str) :
  startswith (strip l) w = true -> startswith (lstrip l) w = true.
Proof.
  unfold strip. destruct (rstrip_prefix (lstrip l)) as [b [E _]].
  rewrite !startswith_iff. intros [t H]. exists (t ++ b).
  rewrite E at 1. rewrite H. now rewrite <- app_assoc.
Qed.

(** A text without colon at the head of a line, leading whitespace apart,
    stays there. *)
Lemma expands_lstrip_startswith_fwd (s o : str) :
  expands s o ->
  forall w, w <> [] -> no_colon w = true ->
            startswith (lstrip s) w = true -> startswith (lstrip o) w = true.
Proof.
  induction 1 as [|c s o E IH|s o E IH]; intros w N Nw Hw.
  - destruct w; [contradiction | discriminate].
  - cbn [lstrip] in Hw |- *. destruct (isspace c).
    + now apply IH.
    + apply (expands_startswith_fwd (expands_copy c E)); assumption.
  - exfalso. change (lstrip (":"%char :: s)) with (":"%char :: s) in Hw.
    destruct w as [|a w]; [contradiction|].
    simpl in Hw. apply andb_true_iff in Hw. destruct Hw as [Ha _].
    simpl in Nw. apply andb_true_iff in Nw. destruct Nw as [Na _].
    apply Ascii.eqb_eq in Ha. subst a. discriminate.
Qed.

Lemma expands_lstrip_startswith_back (s o : str) :
  expands s o ->
  forall w, w <> [] -> space_safe w = true -> starts_with_hyphen w = false ->
            startswith (lstrip o) w = true -> startswith (lstrip s) w = true.
Proof.
  induction 1 as [|c s o E IH|s o E IH]; intros w N Sw Hy Hw.
  - destruct w; [contradiction | discriminate].
  - cbn [lstrip] in Hw |- *. destruct (isspace c).
    + now apply IH.
    + apply (expands_startswith_back (expands_copy c E)); assumption.
  - exfalso. change (lstrip (" "%char :: "-"%char :: o)) with ("-"%char :: o) in Hw.
    destruct w as [|a w]; [contradiction|].
    simpl in Hw. apply andb_true_iff in Hw. destruct Hw as [Ha _].
    apply Ascii.eqb_eq in Ha. subst a. discriminate.
Qed.

Lemma find_graph_start_found (c : str) :
  startswith c (lit "graph") = true \/ no_graph_line c = false ->
  startswith (lstrip (find_graph_start c)) (lit "graph") = true.
Proof.
  intros H. unfold find_graph_start.
  destruct (startswith c (lit "graph")) eqn:G.
  - rewrite lstrip_id; [exact G|].
    apply startswith_iff in G. destruct G as [t ->]. reflexivity.
  - destruct H as [H|H]; [discriminate|]. cbv zeta.
    destruct (graph_line_index (split c NL)) as [i|] eqn:I.
    + apply graph_line_index_some in I. destruct I as [l [rest [-> L]]].
      apply startswith_strip_lstrip in L.
      assert (N : lstrip l <> []).
      { intros E. rewrite E in L. discriminate. }
      destruct rest as [|l' rest]; [exact L|].
      rewrite join_cons by discriminate. rewrite lstrip_app by exact N.
      apply startswith_iff in L. destruct L as [t ->].
      rewrite <- app_assoc. apply startswith_app.
    + apply graph_line_index_none in I. unfold no_graph_line in H. congruence.
Qed.

(** ** What a sanitized diagram is *)

(** C2, as the code has it: a text that the sanitizer accepts contains
    graph TD or graph LR and no code-fence marker. It starts with graph
    when the fence-stripped text does; when instead a later line of the
    fence-stripped text, trimmed, starts with graph, it starts with the
    leading whitespace of that line, followed by graph. *)
Theorem sanitized_diagram_shape (code diagram : str) :
  sanitize code = Valid diagram ->
  (contains diagram (lit "graph TD") = true \/
   contains diagram (lit "graph LR") = true) /\
  contains diagram (lit "```") = false /\
  (startswith (strip_fences code) (lit "graph") = true ->
   startswith diagram (lit "graph") = true) /\
  (no_graph_line (strip_fences code) = false ->
   startswith (lstrip diagram) (lit "graph") = true).
Proof.
  intros S. apply sanitize_valid in S. destruct S as [-> V]. repeat split.
  - unfold has_graph_decl in V. now apply orb_true_iff in V.
  - apply clean_no_fence.
  - intros G. unfold clean.
    apply (expands_startswith_fwd (expands_clean_labels _)); [reflexivity|].
    unfold find_graph_start. now rewrite G.
  - intros L. unfold clean.
    apply (expands_lstrip_startswith_fwd (expands_clean_labels _));
      [discriminate | reflexivity |].
    apply find_graph_start_found. now right.
Qed.

Lemma sanitized_diagram_shape_witness :
  contains (unlines ["graph TD"; "  A[Start - Here] --> B[End]"]%string) (lit "```")
  = false.
Proof.
  apply (@sanitized_diagram_shape
           (unlines ["```mermaid"; "graph TD"; "  A[Start: Here] --> B[End]"; "```"]%string)
           (unlines ["graph TD"; "  A[Start - Here] --> B[End]"]%string)).
  reflexivity.
Defined.

(** C2 as stated fails: the accepted text need not start with graph. The
    line found by the search keeps its indentation, and a text with graph TD
    inside a line is accepted as it is. *)
Lemma accepted_without_leading_graph :
  sanitize (unlines ["Here is your roadmap:"; "  graph TD"; "  A --> B"]%string)
  = Valid (unlines ["  graph TD"; "  A --> B"]%string) /\
  startswith (unlines ["  graph TD"; "  A --> B"]%string) (lit "graph") = false /\
  sanitize (lit "see graph TD") = Valid (lit "see graph TD") /\
  startswith (lit "see graph TD") (lit "graph") = false.
Proof. repeat split. Qed.

(** ** Trailing whitespace *)

Lemma ends_with_space_app (a t : str) :
  t <> [] -> ends_with_space (a ++ t) = ends_with_space t.
Proof.
  intros N. induction a as [|c a IH]; [reflexivity|].
  cbn [app ends_with_space]. destruct (a ++ t) eqn:E; [|exact IH].
  apply app_eq_nil in E. destruct E as [_ E]. contradiction.
Qed.

Lemma ends_with_space_rev (s : str) : ends_with_space (rev s) = starts_with_space s.
Proof.
  destruct s as [|c s]; [reflexivity|].
  simpl. now rewrite ends_with_space_app by discriminate.
Qed.

Lemma rstrip_no_trailing_space (s : str) : ends_with_space (rstrip s) = false.
Proof.
  unfold rstrip. rewrite ends_with_space_rev. apply lstrip_no_leading_space.
Qed.

Lemma rstrip_id (s : str) : ends_with_space s = false -> rstrip s = s.
Proof.
  intros H. unfold rstrip. rewrite lstrip_id.
  - apply rev_involutive.
  - rewrite <- ends_with_space_rev. now rewrite rev_involutive.
Qed.

Lemma strip_id (s : str) :
  starts_with_space s = false -> ends_with_space s = false -> strip s = s.
Proof.
  intros H1 H2. unfold strip. rewrite (lstrip_id s H1). now apply rstrip_id.
Qed.

Lemma strip_fences_no_trailing_space (code : str) :
  ends_with_space (strip_fences code) = false.
Proof. unfold strip_fences, strip. cbv zeta. apply rstrip_no_trailing_space. Qed.

Lemma suffix_no_trailing_space (c pre t : str) :
  c = pre ++ t -> ends_with_space c = false -> ends_with_space t = false.
Proof.
  intros -> H. destruct t as [|x t]; [reflexivity|].
  now rewrite ends_with_space_app in H by discriminate.
Qed.

Lemma clean_no_trailing_space (code : str) : ends_with_space (clean code) = false.
Proof.
  unfold clean. apply (expands_ends_with_space (expands_clean_labels _)).
  destruct (find_graph_start_suffix (strip_fences code)) as [pre E].
  apply (suffix_no_trailing_space _ _ E). apply strip_fences_no_trailing_space.
Qed.

(** A word that ends in a non-space survives the stripping of what
    follows it. *)
Lemma startswith_lstrip_strip (l w : str) :
  w <> [] -> ends_with_space w = false ->
  startswith (lstrip l) w = true -> startswith (strip l) w = true.
Proof.
  intros N Ew H. unfold strip. apply startswith_iff in H. destruct H as [t H].
  rewrite H. unfold rstrip. rewrite rev_app_distr, lstrip_app_cases.
  destruct (lstrip (rev t)) as [|x u] eqn:U.
  - fold (rstrip w). rewrite rstrip_id by exact Ew.
    apply startswith_iff. exists []. now rewrite app_nil_r.
  - rewrite rev_app_distr, rev_involutive. apply startswith_app.
Qed.

Lemma strip_startswith_clean_line (l : str) :
  startswith (strip (clean_line l)) (lit "graph")
  = startswith (strip l) (lit "graph").
Proof.
  pose proof (expands_clean_line l) as E.
  destruct (startswith (strip l) (lit "graph")) eqn:H.
  - apply startswith_lstrip_strip; [discriminate | reflexivity |].
    apply (expands_lstrip_startswith_fwd E); [discriminate | reflexivity |].
    now apply startswith_strip_lstrip.
  - destruct (startswith (strip (clean_line l)) (lit "graph")) eqn:H'; [|reflexivity].
    rewrite <- H. symmetry.
    apply startswith_lstrip_strip; [discriminate | reflexivity |].
    apply (expands_lstrip_startswith_back E);
      [discriminate | reflexivity | reflexivity |].
    now apply startswith_strip_lstrip.
Qed.

Lemma graph_line_index_clean (ls : list str) :
  graph_line_index (map clean_line ls) = graph_line_index ls.
Proof.
  induction ls as [|l ls IH]; [reflexivity|].
  cbn [map graph_line_index]. now rewrite strip_startswith_clean_line, IH.
Qed.

(** ** Cleaning a cleaned text again *)

Lemma expands_In (s o : str) (x : ascii) :
  expands s o -> In x o -> In x s \/ x = " "%char \/ x = "-"%char.
Proof.
  induction 1 as [|c s o E IH|s o E IH]; intros I.
  - destruct I.
  - destruct I as [->|I]; [left; now left|].
    destruct (IH I) as [H|H]; [left; now right | now right].
  - destruct I as [<-|[<-|I]]; [tauto | tauto |].
    destruct (IH I) as [H|H]; [left; now right | now right].
Qed.

Lemma clean_line_no_newline (l : str) : ~ In NL l -> ~ In NL (clean_line l).
Proof.
  intros H I. destruct (@expands_In _ _ _ (expands_clean_line l) I) as [K|[K|K]];
    [now apply H | discriminate | discriminate].
Qed.

Lemma split_clean_labels (s : str) :
  split (clean_labels s) NL = map clean_line (split s NL).
Proof.
  unfold clean_labels. apply split_join.
  - pose proof (split_nonempty s NL). destruct (split s NL); [contradiction | discriminate].
  - pose proof (split_lines_no_newline s) as F.
    induction F; constructor; [now apply clean_line_no_newline | assumption].
Qed.

Lemma clean_line_idempotent (l : str) : clean_line (clean_line l) = clean_line l.
Proof.
  destruct (contains l (lit "[") && contains l (lit "]")) eqn:B.
  - assert (E : clean_line l = replace l (lit ":") (lit " -"))
      by (unfold clean_line; now rewrite B).
    rewrite E. apply andb_true_iff in B. destruct B as [B1 B2].
    unfold clean_line.
    rewrite (expands_contains_fwd (expands_replace_colon l) (lit "[") eq_refl B1).
    rewrite (expands_contains_fwd (expands_replace_colon l) (lit "]") eq_refl B2).
    cbn [andb]. apply replace_absent. apply replace_colon_no_colon.
  - assert (E : clean_line l = l) by (unfold clean_line; now rewrite B).
    now rewrite !E.
Qed.

Lemma clean_labels_idempotent (s : str) :
  clean_labels (clean_labels s) = clean_labels s.
Proof.
  unfold clean_labels at 1. rewrite split_clean_labels, map_map.
  unfold clean_labels. f_equal. apply map_ext. apply clean_line_idempotent.
Qed.

Lemma find_graph_start_clean (c : str) :
  find_graph_start (clean_labels (find_graph_start c))
  = clean_labels (find_graph_start c).
Proof.
  set (y := clean_labels (find_graph_start c)).
  unfold find_graph_start at 1.
  destruct (startswith y (lit "graph")) eqn:Y; [reflexivity|]. cbv zeta.
  unfold y at 1 2. rewrite split_clean_labels, graph_line_index_clean.
  unfold find_graph_start.
  destruct (startswith c (lit "graph")) eqn:G.
  - exfalso. unfold y, find_graph_start in Y. rewrite G in Y.
    rewrite (expands_startswith_fwd (expands_clean_labels c) (lit "graph") eq_refl G) in Y.
    discriminate.
  - cbv zeta. destruct (graph_line_index (split c NL)) as [i|] eqn:I.
    + pose proof (graph_line_index_some _ I) as [l [rest [K L]]].
      assert (Sp : split (join nl (skipn i (split c NL))) NL = skipn i (split c NL)).
      { apply split_join.
        - rewrite K. discriminate.
        - pose proof (split_lines_no_newline c) as F.
          rewrite <- (firstn_skipn i (split c NL)) in F.
          apply Forall_app in F. tauto. }
      rewrite Sp, K. cbn [graph_line_index]. rewrite L. cbn [skipn].
      unfold y, find_graph_start. rewrite G. cbv zeta. rewrite I.
      unfold clean_labels. now rewrite Sp, K.
    + rewrite I. reflexivity.
Qed.

Lemma contains_longer_false (s p q : str) :
  contains s p = false -> contains s (p ++ q) = false.
Proof.
  intros H. destruct (contains s (p ++ q)) eqn:C; [|reflexivity].
  apply contains_iff in C. destruct C as [a [b E]].
  rewrite <- H. symmetry. apply contains_iff. exists a, (q ++ b).
  now rewrite E, <- app_assoc.
Qed.

Lemma strip_fences_id (s : str) :
  starts_with_space s = false -> ends_with_space s = false ->
  contains s (lit "```") = false ->
  strip_fences s = s.
Proof.
  intros H1 H2 H3. unfold strip_fences. cbv zeta.
  rewrite (strip_id s H1 H2).
  rewrite (@replace_absent s (lit "```mermaid") [])
    by exact (contains_longer_false s (lit "```") (lit "mermaid") H3).
  rewrite (@replace_absent s (lit "```") []) by exact H3.
  now apply strip_id.
Qed.

(** A cleaned text that does not begin with whitespace is cleaned to
    itself. *)
Lemma clean_clean (code : str) :
  starts_with_space (clean code) = false -> clean (clean code) = clean code.
Proof.
  intros H. unfold clean at 1.
  rewrite strip_fences_id;
    [| exact H | apply clean_no_trailing_space | apply clean_no_fence].
  unfold clean. rewrite find_graph_start_clean. apply clean_labels_idempotent.
Qed.

(** C3, as the code has it: the sanitizer, applied to a text it has
    accepted, gives this text again when the text does not begin with a
    whitespace character. *)
Theorem sanitize_idempotent (code diagram : str) :
  sanitize code = Valid diagram ->
  starts_with_space diagram = false ->
  sanitize diagram = Valid diagram.
Proof.
  intros S H. apply sanitize_valid in S. destruct S as [-> V].
  unfold sanitize. cbv zeta. rewrite (clean_clean code H). now rewrite V.
Qed.

Lemma sanitize_idempotent_witness :
  sanitize (unlines ["graph TD"; "  A[Start - Here] --> B[End]"]%string)
  = Valid (unlines ["graph TD"; "  A[Start - Here] --> B[End]"]%string).
Proof.
  apply (@sanitize_idempotent
           (unlines ["```mermaid"; "graph TD"; "  A[Start: Here] --> B[End]"; "```"]%string));
    reflexivity.
Defined.

(** C3 as stated fails: an accepted text may begin with whitespace, and the
    second pass strips it. *)
Lemma sanitize_twice_differs :
  sanitize (unlines ["Here is your roadmap:"; "  graph TD"; "  A --> B"]%string)
  = Valid (unlines ["  graph TD"; "  A --> B"]%string) /\
  sanitize (unlines ["  graph TD"; "  A --> B"]%string)
  = Valid (unlines ["graph TD"; "  A --> B"]%string) /\
  unlines ["graph TD"; "  A --> B"]%string <> unlines ["  graph TD"; "  A --> B"]%string.
Proof. repeat split. discriminate. Qed.

(** ** The end-to-end example *)

Example end_to_end_go_fast :
  run (stub_world (Returned (text_response start_end_graph)) (Returned svg_ok))
      (generate_roadmap go_fast)
  = ([CalledModel model_name (build_prompt go_fast);
      CalledKroki kroki_url (kroki_json start_end_graph) 20],
     [ ("mermaid"%string, VStr start_end_graph);
       ("svg"%string, VStr (lit "<svg/>"));
       ("success"%string, VBool true) ]).
Proof. reflexivity. Qed.

(** * Further properties of the cleaning code *)

(** ** Lines the label clean-up leaves alone *)

Lemma clean_line_fixed_iff (l : str) :
  clean_line l = l <-> bracket_line_ok l = true.
Proof.
  unfold clean_line, bracket_line_ok.
  destruct (contains l (lit "[") && contains l (lit "]")) eqn:B; cbn [andb negb].
  - split.
    + intros E. rewrite <- E. now rewrite replace_colon_no_colon.
    + intros C. apply negb_true_iff in C. now apply replace_absent.
  - tauto.
Qed.

Lemma map_fixed_iff (A : Type) (f : A -> A) (ls : list A) :
  map f ls = ls <-> Forall (fun x => f x = x) ls.
Proof.
  induction ls as [|x ls IH]; simpl.
  - split; [constructor | reflexivity].
  - split.
    + intros H. injection H as Hx Hls. constructor; [exact Hx | now apply IH].
    + intros H. inversion H as [|? ? Hx Hls]; subst.
      rewrite Hx. f_equal. now apply IH.
Qed.

Lemma clean_labels_fixed_iff (s : str) :
  clean_labels s = s <-> forallb bracket_line_ok (split s NL) = true.
Proof.
  rewrite forallb_forall. split.
  - intros E l I.
    assert (M : map clean_line (split s NL) = split s NL).
    { rewrite <- split_clean_labels. now rewrite E. }
    apply map_fixed_iff in M. rewrite Forall_forall in M.
    apply clean_line_fixed_iff. now apply M.
  - intros F. unfold clean_labels.
    assert (M : map clean_line (split s NL) = split s NL).
    { apply map_fixed_iff. rewrite Forall_forall. intros l I.
      apply clean_line_fixed_iff. now apply F. }
    rewrite M. apply join_split.
Qed.

(** X1: in the cleaned code, whatever the input, no line has an opening
    bracket, a closing bracket and a colon at once: the colons of every
    bracketed line are gone. *)
Theorem cleaned_bracket_lines_have_no_colon (code : str) :
  forallb bracket_line_ok (split (clean code) NL) = true.
Proof.
  apply clean_labels_fixed_iff. unfold clean. apply clean_labels_idempotent.
Qed.

(** X2: the label clean-up of lines 105-116 leaves a text as it is exactly
    when none of its lines has both brackets and a colon. *)
Theorem label_cleanup_fixed_points (mermaid_code : str) :
  clean_labels mermaid_code = mermaid_code <->
  forallb bracket_line_ok (split mermaid_code NL) = true.
Proof. apply clean_labels_fixed_iff. Qed.

(** ** Where the characters of the cleaned code come from *)

Lemma replace_from_delete_In (x : ascii) (old s : str) (k : nat) :
  In x (replace_from k s old []) -> In x s.
Proof.
  revert k; induction s as [|c s IH]; intros k H; [exact H|].
  cbn [replace_from] in H. destruct k as [|k].
  - destruct (startswith (c :: s) old).
    + right. now apply (IH (List.length old - 1)).
    + destruct H as [H|H]; [now left | right; now apply (IH 0)].
  - right. now apply (IH k).
Qed.

Lemma strip_In (x : ascii) (s : str) : In x (strip s) -> In x s.
Proof.
  intros H. destruct (strip_infix s) as [a [b E]]. rewrite E.
  apply in_or_app. right. apply in_or_app. now left.
Qed.

Lemma strip_fences_In (x : ascii) (code : str) :
  In x (strip_fences code) -> In x code.
Proof.
  unfold strip_fences. cbv zeta. intros H.
  apply strip_In in H. unfold replace in H.
  apply replace_from_delete_In in H. apply replace_from_delete_In in H.
  now apply strip_In in H.
Qed.

(** X3: the cleaning invents no text: every character of the cleaned code
    is a character of the extracted text, or the space or the hyphen that
    stand for a replaced colon. *)
Theorem cleaned_characters_come_from_input (code : str) (x : ascii) :
  In x (clean code) ->
  In x code \/ x = " "%char \/ x = "-"%char.
Proof.
  unfold clean. intros H.
  destruct (@expands_In _ _ _ (expands_clean_labels _) H) as [K|K]; [|now right].
  left. apply strip_fences_In.
  destruct (find_graph_start_suffix (strip_fences code)) as [pre E].
  rewrite E. apply in_or_app. now right.
Qed.

Lemma cleaned_characters_come_from_input_witness :
  In "T"%char (unlines ["```mermaid"; "graph TD"; "```"]%string) \/
  "T"%char = " "%char \/ "T"%char = "-"%char.
Proof.
  apply (@cleaned_characters_come_from_input
           (unlines ["```mermaid"; "graph TD"; "```"]%string) "T"%char).
  vm_compute. tauto.
Defined.

(** ** The length of the cleaned code *)

Lemma expands_length (s o : str) :
  expands s o -> List.length o <= 2 * List.length s.
Proof. induction 1; simpl; lia. Qed.

Lemma replace_from_delete_length (old s : str) (k : nat) :
  List.length (replace_from k s old []) <= List.length s.
Proof.
  revert k; induction s as [|c s IH]; intros k; [reflexivity|].
  cbn [replace_from]. destruct k as [|k].
  - destruct (startswith (c :: s) old); simpl.
    + specialize (IH (List.length old - 1)). lia.
    + specialize (IH 0). lia.
  - specialize (IH k). simpl. lia.
Qed.

Lemma strip_length (s : str) : List.length (strip s) <= List.length s.
Proof.
  destruct (strip_infix s) as [a [b E]]. rewrite E at 2.
  rewrite !length_app. lia.
Qed.

(** X4: the cleaned code is at most twice as long as the extracted text
    (a colon becomes two characters, everything else is kept or dropped). *)
Theorem cleaned_length_bound (code : str) :
  List.length (clean code) <= 2 * List.length code.
Proof.
  unfold clean.
  pose proof (expands_length (expands_clean_labels
                (find_graph_start (strip_fences code)))) as H1.
  destruct (find_graph_start_suffix (strip_fences code)) as [pre E].
  apply (f_equal (@List.length ascii)) in E. rewrite length_app in E.
  assert (H2 : List.length (strip_fences code) <= List.length code).
  { unfold strip_fences, replace. cbv zeta.
    pose proof (strip_length code).
    pose proof (replace_from_delete_length (lit "```mermaid") (strip code) 0).
    pose proof (replace_from_delete_length (lit "```")
                  (replace_from 0 (strip code) (lit "```mermaid") []) 0).
    pose proof (strip_length
                  (replace_from 0 (replace_from 0 (strip code) (lit "```mermaid") [])
                     (lit "```") [])).
    lia. }
  lia.
Qed.

(** ** Texts the sanitizer passes through, and texts it refuses *)

Lemma strip_no_leading_space (s : str) : starts_with_space (strip s) = false.
Proof.
  unfold strip. pose proof (lstrip_no_leading_space s) as H.
  destruct (rstrip_prefix (lstrip s)) as [b [E _]].
  destruct (rstrip (lstrip s)) as [|c r]; [reflexivity|].
  rewrite E in H. exact H.
Qed.

Lemma startswith_graph_no_leading_space (s : str) :
  startswith s (lit "graph") = true -> starts_with_space s = false.
Proof. intros H. apply startswith_iff in H. destruct H as [t ->]. reflexivity. Qed.

(** X5: a diagram that starts with graph, has no fence marker, does not end
    with whitespace and has no colon on a line with both brackets is cleaned
    to itself; when it also contains graph TD or graph LR, the sanitizer
    accepts it unchanged. *)
Theorem well_formed_diagram_unchanged (code : str) :
  startswith code (lit "graph") = true ->
  contains code (lit "```") = false ->
  ends_with_space code = false ->
  forallb bracket_line_ok (split code NL) = true ->
  clean code = code /\
  (has_graph_decl code = true -> sanitize code = Valid code).
Proof.
  intros G F E B.
  assert (C : clean code = code).
  { unfold clean.
    rewrite strip_fences_id;
      [| now apply startswith_graph_no_leading_space | exact E | exact F].
    unfold find_graph_start. rewrite G. now apply clean_labels_fixed_iff. }
  split; [exact C|].
  intros D. unfold sanitize. cbv zeta. now rewrite C, D.
Qed.

Lemma well_formed_diagram_unchanged_witness :
  sanitize start_end_graph = Valid start_end_graph.
Proof.
  apply (@well_formed_diagram_unchanged start_end_graph); reflexivity.
Defined.

(** X6: lines 91-94 are idempotent: fence-stripped text has no fence marker
    and no whitespace at either end, and stripping it again changes
    nothing. *)
Theorem strip_fences_idempotent (code : str) :
  strip_fences (strip_fences code) = strip_fences code.
Proof.
  apply strip_fences_id.
  - unfold strip_fences. cbv zeta. apply strip_no_leading_space.
  - apply strip_fences_no_trailing_space.
  - apply strip_fences_no_fence.
Qed.

(** X7: the cleaned code never ends with a whitespace character, whether
    the gate then accepts it or not. *)
Theorem cleaned_code_has_no_trailing_space (code : str) :
  ends_with_space (clean code) = false.
Proof. apply clean_no_trailing_space. Qed.

(** X8: a text whose fence-stripped form contains neither graph TD nor
    graph LR is refused, whatever its lines begin with; the diagnostic is
    the first 300 characters of the cleaned code. *)
Theorem no_declaration_is_refused (code : str) :
  has_graph_decl (strip_fences code) = false ->
  sanitize code = Invalid (firstn 300 (clean code)).
Proof.
  intros D. unfold sanitize. cbv zeta.
  assert (H : has_graph_decl (clean code) = false).
  { unfold clean. rewrite has_graph_decl_clean_labels.
    destruct (find_graph_start_suffix (strip_fences code)) as [pre E].
    unfold has_graph_decl in D |- *. apply orb_false_iff in D.
    destruct D as [D1 D2]. apply orb_false_iff. split.
    - apply (@contains_infix_false (strip_fences code) _ pre [] _);
        [now rewrite app_nil_r | exact D1].
    - apply (@contains_infix_false (strip_fences code) _ pre [] _);
        [now rewrite app_nil_r | exact D2]. }
  now rewrite H.
Qed.

Lemma no_declaration_is_refused_witness :
  sanitize (unlines ["Intro"; "graph BT"; "A[x: y] --> B"]%string)
  = Invalid (unlines ["graph BT"; "A[x - y] --> B"]%string).
Proof.
  apply (@no_declaration_is_refused
           (unlines ["Intro"; "graph BT"; "A[x: y] --> B"]%string)).
  reflexivity.
Defined.

(** X9: the label clean-up never changes the verdict of the gate: the
    cleaned code is accepted exactly when the text from the graph line on,
    before its labels are cleaned, contains graph TD or graph LR. *)
Theorem gate_verdict_before_label_cleanup (code : str) :
  (exists diagram, sanitize code = Valid diagram) <->
  has_graph_decl (find_graph_start (strip_fences code)) = true.
Proof.
  unfold sanitize. cbv zeta. unfold clean at 1.
  rewrite has_graph_decl_clean_labels.
  destruct (has_graph_decl (find_graph_start (strip_fences code))).
  - split; [reflexivity | intros _; eexists; reflexivity].
  - split; [intros [d H]; discriminate | discriminate].
Qed.

Lemma all_space_lstrip (s : str) : forallb isspace s = true -> lstrip s = [].
Proof.
  induction s as [|c s IH]; [reflexivity|].
  simpl. intros H. apply andb_true_iff in H. destruct H as [Hc Hs].
  rewrite Hc. now apply IH.
Qed.

Lemma all_space_clean (code : str) : forallb isspace code = true -> clean code = [].
Proof.
  intros H. unfold clean, strip_fences, strip. cbv zeta.
  rewrite (all_space_lstrip code H). reflexivity.
Qed.

(** * Further properties of the extraction *)

Lemma collect_text_parts_nonempty (ps : list Part) (text_parts l : list str) :
  collect_text_parts ps text_parts = Returned l ->
  Forall (fun t => t <> []) text_parts ->
  Forall (fun t => t <> []) l.
Proof.
  revert text_parts; induction ps as [|part ps IH]; intros text_parts H F.
  - simpl in H. now injection H as <-.
  - cbn [collect_text_parts] in H.
    destruct (part_text part) as [e|[[|c s]|]]; cbn [hasattr bind] in H.
    + destruct (is_attribute_error e); [|discriminate]. now apply (IH text_parts).
    + now apply (IH text_parts).
    + apply (IH (text_parts ++ [c :: s])); [exact H|].
      apply Forall_app. split; [exact F|]. constructor; [discriminate | constructor].
    + now apply (IH text_parts).
Qed.

Lemma join_nonempty (sep t : str) (ls : list str) : t <> [] -> join sep (t :: ls) <> [].
Proof.
  intros N. destruct t as [|c t]; [contradiction|].
  cbn [join]. destruct ls; discriminate.
Qed.

(** X10: when the candidates method (lines 74-83) yields a text, the text
    is not empty: extraction through the candidates never hands an empty
    string to line 87. *)
Theorem method2_text_nonempty (response : GenerateContentResponse) (t : str) :
  method2 response = Returned (Some t) -> t <> [].
Proof.
  unfold method2.
  destruct (candidates response) as [e|[[|candidate rest]|]]; cbn [bind];
    try discriminate.
  destruct (content candidate) as [e|[cont|]]; cbn [bind]; try discriminate.
  destruct (parts cont) as [e|[[|p ps]|]]; cbn [bind]; try discriminate.
  destruct (collect_text_parts (p :: ps) []) as [e|l] eqn:C; cbn [bind];
    try discriminate.
  destruct l as [|x l]; [discriminate|].
  intros H. injection H as <-.
  apply collect_text_parts_nonempty in C; [|constructor].
  inversion C as [|? ? Hx _]; subst. apply (join_nonempty [] l Hx).
Qed.

Lemma method2_text_nonempty_witness :
  method2 (parts_response (Raised (value_error "no text"))
             [text_part (lit "graph TD"); text_part nl; text_part (lit "A --> B")])
  = Returned (Some (unlines ["graph TD"; "A --> B"]%string)) /\
  unlines ["graph TD"; "A --> B"]%string <> [].
Proof.
  split; [reflexivity|].
  apply (@method2_text_nonempty
           (parts_response (Raised (value_error "no text"))
              [text_part (lit "graph TD"); text_part nl; text_part (lit "A --> B")])).
  reflexivity.
Defined.

(** X11: only the first candidate is read: two responses with the same
    direct text and the same first candidate give the same extracted text,
    whatever their other candidates are. *)
Theorem only_first_candidate_is_read (r1 r2 : GenerateContentResponse)
  (candidate : Candidate) (rest1 rest2 : list Candidate) :
  text r1 = text r2 ->
  candidates r1 = Returned (Some (candidate :: rest1)) ->
  candidates r2 = Returned (Some (candidate :: rest2)) ->
  extract_text r1 = extract_text r2.
Proof.
  intros T C1 C2. unfold extract_text, method1, method2.
  now rewrite T, C1, C2.
Qed.

Lemma only_first_candidate_is_read_witness :
  extract_text
    {| text := Raised (value_error "no text");
       candidates := Returned (Some [ {| content := Returned None |} ]) |}
  = extract_text
      {| text := Raised (value_error "no text");
         candidates :=
           Returned (Some [ {| content := Returned None |};
                            {| content := Returned (Some {| parts :=
                                 Returned (Some [text_part (lit "graph TD")]) |}) |} ]) |}.
Proof.
  apply (@only_first_candidate_is_read _ _ {| content := Returned None |} []
           [ {| content := Returned (Some {| parts :=
                  Returned (Some [text_part (lit "graph TD")]) |}) |} ]);
    reflexivity.
Defined.

Lemma collect_text_parts_raises (ps : list Part) (text_parts : list str) :
  Exists (fun part => ~ part_readable part) ps ->
  exists e, collect_text_parts ps text_parts = Raised e.
Proof.
  intros X. revert text_parts.
  induction X as [part ps N|part ps _ IH]; intros text_parts.
  - cbn [collect_text_parts]. unfold part_readable in N.
    destruct (part_text part) as [e|t]; [|now destruct N].
    cbn [hasattr]. destruct (is_attribute_error e); [now destruct N|].
    now exists e.
  - cbn [collect_text_parts].
    destruct (part_text part) as [e|[[|c s]|]]; cbn [hasattr bind].
    + destruct (is_attribute_error e); [apply IH | now exists e].
    + apply IH.
    + apply IH.
    + apply IH.
Qed.

(** X12: one part whose text cannot be read (the read raises something
    other than an AttributeError) voids the whole extraction through the
    candidates: the texts of the other parts are lost and no text is
    extracted. *)
Theorem unreadable_part_voids_extraction (response : GenerateContentResponse)
  (e : exn) (candidate : Candidate) (rest : list Candidate) (cont : Content)
  (ps : list Part) :
  text response = Raised e -> is_attribute_error e = false ->
  candidates response = Returned (Some (candidate :: rest)) ->
  content candidate = Returned (Some cont) ->
  parts cont = Returned (Some ps) ->
  Exists (fun part => ~ part_readable part) ps ->
  extract_text response = None.
Proof.
  intros T A C1 C2 C3 X. unfold extract_text. rewrite method1_cases, T, A.
  unfold method2. rewrite C1. cbn [bind]. rewrite C2. cbn [bind].
  rewrite C3. cbn [bind].
  destruct ps as [|p ps]; [reflexivity|].
  destruct (collect_text_parts_raises [] X) as [e' ->]. reflexivity.
Qed.

Lemma unreadable_part_voids_extraction_witness :
  extract_text
    (parts_response (Raised (value_error "no text"))
       [text_part (lit "graph TD");
        {| part_text := Raised (value_error "blocked") |}])
  = None.
Proof.
  apply (@unreadable_part_voids_extraction
           (parts_response (Raised (value_error "no text"))
              [text_part (lit "graph TD");
               {| part_text := Raised (value_error "blocked") |}])
           (value_error "no text") _ [] _ _
           eq_refl eq_refl eq_refl eq_refl eq_refl).
  apply Exists_cons_tl. apply Exists_cons_hd. simpl. discriminate.
Defined.

(** * Further properties of the handler *)

(** X13: a run calls the model exactly once, first, with the fixed model
    name and the prompt of the request, and Kroki at most once, after it,
    at the fixed address with the fixed diagram type, output format and
    timeout, and with a diagram the sanitizer accepted: no call is ever
    repeated. *)
Theorem calls_of_a_run (w : World) (req : RoadmapRequest) :
  fst (run w (generate_roadmap req))
  = [CalledModel model_name (build_prompt req)] \/
  exists response code diagram,
    generate_content w model_name (build_prompt req) = Returned response /\
    extract_text response = Some code /\
    sanitize code = Valid diagram /\
    fst (run w (generate_roadmap req))
    = [CalledModel model_name (build_prompt req);
       CalledKroki kroki_url (kroki_json diagram) 20].
Proof.
  rewrite run_generate_roadmap. cbv zeta.
  destruct (generate_content w model_name (build_prompt req)) as [e|response];
    [now left|].
  destruct (extract_text response) as [[|c code]|] eqn:E; try (now left).
  destruct (sanitize (c :: code)) as [diagram|raw] eqn:S; [|now left].
  right. exists response, (c :: code), diagram.
  repeat split; try assumption.
  now destruct (requests_post w kroki_url (kroki_json diagram) 20).
Qed.

(** X14: success is reported only for an answer of Kroki with status 200:
    when a returned dictionary has [success] set to true, the run called
    the model and then Kroki, Kroki answered the diagram that was sent with
    status 200, and the dictionary holds this diagram as [mermaid] and the
    body of the answer as [svg]. *)
Theorem success_only_on_200 (w : World) (req : RoadmapRequest) :
  In ("success"%string, VBool true) (snd (run w (generate_roadmap req))) ->
  exists diagram kroki_response,
    fst (run w (generate_roadmap req))
    = [CalledModel model_name (build_prompt req);
       CalledKroki kroki_url (kroki_json diagram) 20] /\
    requests_post w kroki_url (kroki_json diagram) 20 = Returned kroki_response /\
    status_code kroki_response = 200%Z /\
    snd (run w (generate_roadmap req))
    = [ ("mermaid"%string, VStr diagram);
        ("svg"%string, VStr (kroki_text kroki_response));
        ("success"%string, VBool true) ].
Proof.
  rewrite run_generate_roadmap. cbv zeta.
  destruct (generate_content w model_name (build_prompt req)) as [e|response].
  { simpl. intros [H|[]]. discriminate. }
  destruct (extract_text response) as [[|c code]|].
  1, 3: simpl; intros [H|[]]; discriminate.
  destruct (sanitize (c :: code)) as [diagram|raw].
  2: simpl; intros [H|[H|[]]]; discriminate.
  destruct (requests_post w kroki_url (kroki_json diagram) 20) as [e|kr] eqn:P.
  { simpl. intros [H|[]]. discriminate. }
  cbn [fst snd]. unfold kroki_result.
  destruct (status_code kr =? 200)%Z eqn:St.
  - intros _. exists diagram, kr. apply Z.eqb_eq in St.
    rewrite P. now repeat split.
  - destruct (contains (lower (kroki_text kr)) (lit "syntax"));
      simpl; intros [H|[H|[H|[]]]]; discriminate.
Qed.

Lemma success_only_on_200_witness :
  exists diagram kroki_response,
    fst (run (stub_world (Returned (text_response start_end_graph)) (Returned svg_ok))
             (generate_roadmap go_fast))
    = [CalledModel model_name (build_prompt go_fast);
       CalledKroki kroki_url (kroki_json diagram) 20] /\
    requests_post (stub_world (Returned (text_response start_end_graph))
                              (Returned svg_ok))
                  kroki_url (kroki_json diagram) 20 = Returned kroki_response /\
    status_code kroki_response = 200%Z /\
    snd (run (stub_world (Returned (text_response start_end_graph)) (Returned svg_ok))
             (generate_roadmap go_fast))
    = [ ("mermaid"%string, VStr diagram);
        ("svg"%string, VStr (kroki_text kroki_response));
        ("success"%string, VBool true) ].
Proof.
  apply (@success_only_on_200
           (stub_world (Returned (text_response start_end_graph)) (Returned svg_ok))
           go_fast).
  vm_compute. tauto.
Defined.

(** X15: an extracted text made of whitespace only passes the emptiness
    test of line 87 and is refused by the gate: the handler answers
    No valid graph found with an empty [raw], and Kroki is not called. *)
Theorem whitespace_text_is_no_valid_graph (w : World) (req : RoadmapRequest)
  (response : GenerateContentResponse) (code : str) :
  generate_content w model_name (build_prompt req) = Returned response ->
  extract_text response = Some code ->
  code <> [] ->
  forallb isspace code = true ->
  run w (generate_roadmap req)
  = ([CalledModel model_name (build_prompt req)], no_valid_graph []).
Proof.
  intros G E N A. rewrite run_generate_roadmap. cbv zeta. rewrite G, E.
  destruct code as [|c code]; [contradiction|].
  unfold sanitize. cbv zeta. rewrite (all_space_clean (c :: code) A).
  reflexivity.
Qed.

Lemma whitespace_text_is_no_valid_graph_witness :
  run (stub_world (Returned (text_response (lit "  " ++ nl))) (Returned svg_ok))
      (generate_roadmap go_fast)
  = ([CalledModel model_name (build_prompt go_fast)], no_valid_graph []).
Proof.
  apply (@whitespace_text_is_no_valid_graph
           (stub_world (Returned (text_response (lit "  " ++ nl))) (Returned svg_ok))
           go_fast (text_response (lit "  " ++ nl)) (lit "  " ++ nl));
    try reflexivity.
  discriminate.
Defined.

(** X16: in every returned dictionary, the diagnostic fields [raw] and
    [details] hold at most 300 characters. *)
Theorem diagnostics_at_most_300 (w : World) (req : RoadmapRequest)
  (key : string) (v : str) :
  In (key, VStr v) (snd (run w (generate_roadmap req))) ->
  key = "raw"%string \/ key = "details"%string ->
  List.length v <= 300.
Proof.
  assert (B : forall s, List.length (slice_to 300 s) <= 300)
    by (intros s; apply firstn_le_length).
  rewrite run_generate_roadmap. cbv zeta.
  destruct (generate_content w model_name (build_prompt req)) as [e|response].
  { cbn [snd server_error In]. intros [H|[]]. injection H as <- _.
    intros [K|K]; discriminate. }
  destruct (extract_text response) as [[|c code]|].
  1, 3: cbn [snd could_not_generate In]; intros [H|[]]; injection H as <- _;
    intros [K|K]; discriminate.
  destruct (sanitize (c :: code)) as [diagram|raw] eqn:S.
  - destruct (requests_post w kroki_url (kroki_json diagram) 20) as [e|kr].
    { cbn [snd server_error In]. intros [H|[]]. injection H as <- _.
      intros [K|K]; discriminate. }
    cbn [snd]. unfold kroki_result.
    destruct (status_code kr =? 200)%Z.
    { cbn [success_result In]. intros [H|[H|[H|[]]]]; try discriminate;
        injection H as <- _; intros [K|K]; discriminate. }
    destruct (contains (lower (kroki_text kr)) (lit "syntax"));
      cbn [syntax_error_result rendering_failed_result In];
      intros [H|[H|[H|[]]]];
      injection H as <- <-; intros [K|K]; try discriminate; apply B.
  - apply sanitize_invalid in S. destruct S as [-> _].
    cbn [snd no_valid_graph In]. intros [H|[H|[]]]; injection H as <- <-;
      intros [K|K]; try discriminate. apply (B (clean (c :: code))).
Qed.

Lemma diagnostics_at_most_300_witness :
  List.length (lit "Syntax error on line 2") <= 300.
Proof.
  apply (@diagnostics_at_most_300
           (stub_world (Returned (text_response start_end_graph))
                       (Returned syntax_error_400))
           go_fast "details"%string (lit "Syntax error on line 2")).
  - vm_compute. tauto.
  - now right.
Defined.

(** X17: the handler answers Could not generate content exactly when the
    model answered and no text, or an empty text, was extracted from its
    response. *)
Theorem could_not_generate_iff (w : World) (req : RoadmapRequest) :
  snd (run w (generate_roadmap req)) = could_not_generate <->
  exists response,
    generate_content w model_name (build_prompt req) = Returned response /\
    (extract_text response = None \/ extract_text response = Some []).
Proof.
  rewrite run_generate_roadmap. cbv zeta.
  destruct (generate_content w model_name (build_prompt req)) as [e|response].
  { split; [discriminate | intros [r [H _]]; discriminate]. }
  destruct (extract_text response) as [[|c code]|] eqn:E.
  - split; [|reflexivity]. intros _. exists response. rewrite E. tauto.
  - split.
    + destruct (sanitize (c :: code)) as [diagram|raw]; [|discriminate].
      destruct (requests_post w kroki_url (kroki_json diagram) 20) as [e|kr];
        [discriminate|].
      cbn [snd]. unfold kroki_result.
      destruct (status_code kr =? 200)%Z; [discriminate|].
      destruct (contains (lower (kroki_text kr)) (lit "syntax")); discriminate.
    + intros [r [H [K|K]]]; injection H as <-; rewrite E in K; discriminate.
  - split; [|reflexivity]. intros _. exists response. rewrite E. tauto.
Qed.

(** X18: the [mermaid] field of a returned dictionary is always the
    diagram that was sent to Kroki in this run. *)
Theorem mermaid_field_is_what_was_sent (w : World) (req : RoadmapRequest)
  (diagram : str) :
  In ("mermaid"%string, VStr diagram) (snd (run w (generate_roadmap req))) ->
  In (CalledKroki kroki_url (kroki_json diagram) 20)
     (fst (run w (generate_roadmap req))).
Proof.
  rewrite run_generate_roadmap. cbv zeta.
  destruct (generate_content w model_name (build_prompt req)) as [e|response].
  { simpl. intros [H|[]]. discriminate. }
  destruct (extract_text response) as [[|c code]|].
  1, 3: simpl; intros [H|[]]; discriminate.
  destruct (sanitize (c :: code)) as [d|raw].
  2: simpl; intros [H|[H|[]]]; discriminate.
  destruct (requests_post w kroki_url (kroki_json d) 20) as [e|kr].
  { simpl. intros [H|[]]. discriminate. }
  cbn [fst snd]. unfold kroki_result.
  destruct (status_code kr =? 200)%Z.
  { simpl. intros [H|[H|[H|[]]]]; try discriminate.
    injection H as <-. right. now left. }
  destruct (contains (lower (kroki_text kr)) (lit "syntax"));
    simpl; intros [H|[H|[H|[]]]]; try discriminate;
    injection H as <-; right; now left.
Qed.

Lemma mermaid_field_is_what_was_sent_witness :
  In (CalledKroki kroki_url (kroki_json start_end_graph) 20)
     (fst (run (stub_world (Returned (text_response start_end_graph))
                           (Returned syntax_error_400))
               (generate_roadmap go_fast))).
Proof.
  apply (@mermaid_field_is_what_was_sent
           (stub_world (Returned (text_response start_end_graph))
                       (Returned syntax_error_400))
           go_fast start_end_graph).
  vm_compute. tauto.
Defined.

(** * The cleaned code as a whole *)

(** X19: the cleaned code is a tail of the fence-stripped text in which
    some colons have become space, hyphen: after the fences are stripped,
    text is only dropped from the front, and what stays is neither
    reordered nor changed otherwise. *)
Theorem cleaned_code_structure (code : str) :
  exists dropped kept,
    strip_fences code = dropped ++ kept /\ expands kept (clean code).
Proof.
  destruct (find_graph_start_suffix (strip_fences code)) as [pre E].
  exists pre, (find_graph_start (strip_fences code)). split; [exact E|].
  unfold clean. apply expands_clean_labels.
Qed.

(** X20: the label clean-up works line by line and keeps the lines apart:
    splitting its result at the newlines gives back the cleaned lines, one
    for each line of the text it was given. *)
Theorem label_cleanup_keeps_lines (mermaid_code : str) :
  split (clean_labels mermaid_code) NL = map clean_line (split mermaid_code NL) /\
  List.length (split (clean_labels mermaid_code) NL)
  = List.length (split mermaid_code NL).
Proof.
  rewrite split_clean_labels. split; [reflexivity | apply length_map].
Qed.
